(** * Word-count synchronisation of a Notion database: model and properties

    A shallow embedding of [src/index.js].  The program lists the pages of a
    Notion database, and for every page that changed since the last recorded
    visit walks its block tree, counts the words of every block, writes the
    count back to Notion, records a snapshot row in the SQLite table [pages]
    and finally appends the sum of all recorded counts to the table
    [word_count_history].

    Conventions of the embedding:
    - a JavaScript string that holds content (block text) is a list of Unicode
      code points, which is what a regular expression with the [u] flag
      iterates over; identifiers, type tags and timestamps, which are ASCII,
      are Rocq strings;
    - the Unicode tables behind [\p{L}], [\p{N}] and [\p{Emoji_Presentation}]
      and the parser behind [new Date(string)] belong to the JavaScript
      runtime; they are parameters of the development;
    - the Notion client and the SQLite driver are described by an interface of
      oracles over an abstract world; a call the program awaits is finished
      before the next one starts; the one statement it does not wait for, the
      upsert of [updateSQLiteDatabase], stays in a queue until the driver
      executes it, possibly after statements issued later;
    - thrown exceptions are the left summand of a sum type;
    - the only unbounded loop, the pagination loop of [processDatabasePages],
      takes fuel. *)

From Stdlib Require Import ZArith NArith Ascii String List Lia Bool.
From stdpp Require Import base option list gmap strings fin_maps.

Import ListNotations.
Local Open Scope Z_scope.

(** ** Text *)

(** Content strings: sequences of code points. *)
Definition text := list N.

(** An ASCII string literal of the source, as content. *)
Definition lit (s : string) : text := List.map N_of_ascii (list_ascii_of_string s).

(** ASCII letters and digits: the members of [\p{L}], [\p{N}] and
    [\p{Emoji_Presentation}] below U+0080. *)
Definition ascii_alnum (c : N) : bool :=
  ((48 <=? c) && (c <=? 57) || (65 <=? c) && (c <=? 90) || (97 <=? c) && (c <=? 122))%N.

(** ECMAScript WhiteSpace and LineTerminator code points. *)
Definition white_space_points : list N :=
  [9; 10; 11; 12; 13; 32; 160; 5760; 8192; 8193; 8194; 8195; 8196; 8197; 8198;
   8199; 8200; 8201; 8202; 8232; 8233; 8239; 8287; 12288; 65279]%N.

Definition white_space (c : N) : bool := existsb (N.eqb c) white_space_points.

(** ** Tokenizer: [countWordsInText] *)

Module Tokenizer.
Section WithClass.

(** Membership in the character class [[\p{L}\p{N}\p{Emoji_Presentation}]]. *)
Variable word_char : N -> bool.

(** The match that ends where the character class stops matching. *)
Definition close (cur : text) : list text :=
  match cur with
  | [] => []
  | _ => [cur]
  end.

(** Global matching of [/[...]+/gu]: left to right, each match a maximal
    run; [cur] is the run being consumed. *)
Fixpoint scan (cur : text) (s : text) : list text :=
  match s with
  | [] => close cur
  | c :: r =>
      if word_char c then scan (cur ++ [c]) r
      else close cur ++ scan [] r
  end.

(** [text.match(re)] with a global [re]: the array of matches, or [null]
    when there is none. *)
Definition String_match (s : text) : option (list text) :=
  match scan [] s with
  | [] => None
  | ms => Some ms
  end.

(** [countWordsInText]; the argument is [None] for [null] or [undefined]. *)
Definition countWordsInText (t : option text) : Z :=
  match t with
  | None => 0
  | Some [] => 0
  | Some s =>
      match String_match s with
      | Some matches => Z.of_nat (length matches)
      | None => 0
      end
  end.

End WithClass.
End Tokenizer.

Export Tokenizer.

(** ** Blocks and [getTextFromBlock] *)

Record RichTextItem := { plain_text : text }.

(** The object [block[block.type]]: the fields the program reads. *)
Record Payload := {
  rich_text : option (list RichTextItem);
  url : text;
  title : text;
  expression : text
}.

Record Block := {
  block_id : string;
  block_type : string;
  has_children : bool;
  payload : Payload
}.

Definition getPlainTextFromRichText (richText : list RichTextItem) : text :=
  concat (List.map plain_text richText).

Definition unsupported_marker : text := lit "[Unsupported or non-text block]".
Definition media_marker : text := lit "[Media Block]".
Definition has_children_suffix : text := lit " (Has children)".

(** Type tags that have a [case] of their own in the [switch]. *)
Definition recognized_types : list string :=
  ["bookmark"; "child_page"; "embed"; "video"; "file"; "image"; "pdf";
   "equation"; "link_preview"]%string.

Definition switch_on_type (b : Block) : text :=
  let ty := block_type b in
  if String.eqb ty "bookmark" then url (payload b)
  else if String.eqb ty "child_page" then
    lit "[Sub-page: " ++ title (payload b) ++ lit "]"
  else if String.eqb ty "embed" || String.eqb ty "video" || String.eqb ty "file"
          || String.eqb ty "image" || String.eqb ty "pdf" then media_marker
  else if String.eqb ty "equation" then expression (payload b)
  else if String.eqb ty "link_preview" then url (payload b)
  else unsupported_marker.

Definition getTextFromBlock (b : Block) : text :=
  let text :=
    match rich_text (payload b) with
    | Some rt => getPlainTextFromRichText rt
    | None => switch_on_type b
    end in
  if has_children b then text ++ has_children_suffix else text.

Section WordCounter.
Variable word_char : N -> bool.

(** [countWordsInBlocks]: the loop adds to [totalWords] block by block. *)
Definition countWordsInBlocks (blocks : list Block) : Z :=
  fold_left
    (fun totalWords block =>
       totalWords + countWordsInText word_char (Some (getTextFromBlock block)))
    blocks 0.
End WordCounter.

(** ** Block tree and [retrieveBlockChildren] *)

(** An exception value: the message of the JavaScript error. *)
Definition Error := string.

(** What the paginated iteration over [notion.blocks.children.list] produces
    for one parent: it yields a block, ends, or throws.  A yielded block
    carries the iteration the API produces when asked for that block's own
    children. *)
Inductive BlockNode : Type :=
| Node (b : Block) (kids : Listing)
with Listing : Type :=
| LDone
| LFail (e : Error)
| LYield (n : BlockNode) (rest : Listing).

(** [retrieveBlockChildren]; [blocks] is the array being filled. *)
Fixpoint retrieveBlockChildren_from (l : Listing) (blocks : list Block)
  : Error + list Block :=
  match l with
  | LDone => inr blocks
  | LFail e => inl e
  | LYield (Node block kids) rest =>
      let blocks := blocks ++ [block] in
      if has_children block then
        match retrieveBlockChildren_from kids [] with
        | inl e => inl e
        | inr childBlocks => retrieveBlockChildren_from rest (blocks ++ childBlocks)
        end
      else retrieveBlockChildren_from rest blocks
  end.

Definition retrieveBlockChildren (l : Listing) : Error + list Block :=
  retrieveBlockChildren_from l [].

(** ** The outside world: Notion client and SQLite driver *)

Record Page := {
  page_id : string;
  last_edited_time : string;
  page_url : string
}.

(** The response of [notion.databases.query]. *)
Record QueryResponse := {
  results : list Page;
  has_more : bool;
  next_cursor : option string
}.

(** A row of the table [pages]; the key [id] is the key of the map. *)
Record Row := {
  row_last_edited_time : string;
  row_word_count : Z
}.

Inductive SqlStmt :=
| SelectLastEdited (pageId : string)
| UpsertPage (pageId : string)
| SelectSum
| InsertHistory.

(** The statement [INSERT INTO pages ... ON CONFLICT(id) DO UPDATE] with its
    three values, as [db.run] hands it to the driver. *)
Record Upsert := {
  upsert_id : string;
  upsert_time : string;
  upsert_count : Z
}.

(** Console output. *)
Inductive Message :=
| AlreadyCrawled (url : string)
| WordCountUpdated (url : string)
| TotalStored (totalWords : Z)
| FailedUpdateWordCount (pageId : string) (e : Error)
| FailedUpdateSQLite (pageId : string) (e : Error)
| FailedProcess (e : Error).

(** Everything the program does to the outside, in order. *)
Inductive Event :=
| CallDatabasesQuery (start_cursor : option string)
| CallBlocksChildren (pageId : string)
| CallPagesUpdate (pageId : string) (wordCount : Z)
| CallPagesRetrieve (pageId : string)
| Sql (stmt : SqlStmt)
| ConsoleLog (m : Message)
| ConsoleError (m : Message).

(** The calls the program makes, over a world [W].  Reads leave the world as
    it is; [pages_update] returns the error it throws, if any, and the world
    after the call.  [sqlite_error] tells whether the driver reports an error
    for a statement when it executes it.

    [updateSQLiteDatabase] does not wait for its statement and the
    connection is never serialized: the upsert waits in a queue until the
    driver executes it, and a statement issued later may be executed first.
    [sqlite_schedule] is the driver's choice: given the trace up to the
    statement the program now waits for, the positions in the queue of the
    upserts the driver executes before that statement, in the order it
    executes them, each position counted in the queue as the earlier ones
    left it. *)
Record Env (W : Type) := {
  databases_query : option string -> W -> Error + QueryResponse;
  blocks_children_list : string -> W -> Listing;
  pages_update : string -> Z -> W -> option Error * W;
  pages_retrieve : string -> W -> Error + Page;
  sqlite_error : SqlStmt -> W -> option Error;
  sqlite_schedule : list Event -> W -> list nat
}.

Arguments databases_query {W}.
Arguments blocks_children_list {W}.
Arguments pages_update {W}.
Arguments pages_retrieve {W}.
Arguments sqlite_error {W}.
Arguments sqlite_schedule {W}.

(** [pages] is the table as the driver has written it so far; [queue] holds
    the upserts issued and not yet executed, oldest first. *)
Record State (W : Type) := {
  world : W;
  pages : gmap string Row;
  queue : list Upsert;
  word_count_history : list Z;
  trace : list Event
}.

Arguments world {W}.
Arguments pages {W}.
Arguments queue {W}.
Arguments word_count_history {W}.
Arguments trace {W}.

Definition add_trace {W : Type} (st : State W) (evs : list Event) : State W :=
  {| world := world st; pages := pages st; queue := queue st;
     word_count_history := word_count_history st;
     trace := trace st ++ evs |}.

(** The HTTP answer of the route. *)
Inductive Response :=
| Json200 (message : string)
| Json500 (error : string).

(** ** The engine *)

Section Engine.
Context {W : Type} (env : Env W).

(** [new Date(s).valueOf()]: milliseconds, or [None] for an invalid date. *)
Variable Date_parse : string -> option Z.
Variable word_char : N -> bool.

(** Computations that read and change the state and may throw. *)
Definition M (A : Type) : Type := State W -> (Error + A) * State W.

Definition ret {A} (a : A) : M A := fun st => (inr a, st).
Definition throw {A} (e : Error) : M A := fun st => (inl e, st).
Definition bind {A B} (m : M A) (k : A -> M B) : M B :=
  fun st =>
    match m st with
    | (inl e, st') => (inl e, st')
    | (inr a, st') => k a st'
    end.
Definition try_catch {A} (m : M A) (handler : Error -> M A) : M A :=
  fun st =>
    match m st with
    | (inl e, st') => handler e st'
    | (inr a, st') => (inr a, st')
    end.

Notation "x <- m ;; k" := (bind m (fun x => k))
  (at level 100, m at next level, right associativity).
Notation "m ;;; k" := (bind m (fun _ => k))
  (at level 100, right associativity).

Definition emit (ev : Event) : M unit :=
  fun st => (inr tt, add_trace st [ev]).

Definition set_world (w : W) : M unit :=
  fun st =>
    (inr tt, {| world := w; pages := pages st; queue := queue st;
                word_count_history := word_count_history st;
                trace := trace st |}).

Definition set_pages (m : gmap string Row) (st : State W) : State W :=
  {| world := world st; pages := m; queue := queue st;
     word_count_history := word_count_history st;
     trace := trace st |}.

Definition set_queue (q : list Upsert) (st : State W) : State W :=
  {| world := world st; pages := pages st; queue := q;
     word_count_history := word_count_history st;
     trace := trace st |}.

Definition set_history (h : list Z) : M unit :=
  fun st =>
    (inr tt, {| world := world st; pages := pages st; queue := queue st;
                word_count_history := h;
                trace := trace st |}).

Definition get_state : M (State W) := fun st => (inr st, st).

Definition modify (f : State W -> State W) : M unit := fun st => (inr tt, f st).

Definition of_result {A} (r : Error + A) : M A :=
  match r with
  | inl e => throw e
  | inr a => ret a
  end.

(** The driver executes an upsert and calls the callback of
    [updateSQLiteDatabase]: insert, or on conflict replace both columns; an
    error is logged in the callback, nothing is thrown. *)
Definition run_upsert (u : Upsert) (st : State W) : State W :=
  match sqlite_error env (UpsertPage (upsert_id u)) (world st) with
  | Some err => add_trace st [ConsoleError (FailedUpdateSQLite (upsert_id u) err)]
  | None =>
      set_pages (<[upsert_id u := {| row_last_edited_time := upsert_time u;
                                     row_word_count := upsert_count u |}]> (pages st)) st
  end.

(** The driver executes the queued upserts at the given positions. *)
Fixpoint land (positions : list nat) (st : State W) : State W :=
  match positions with
  | [] => st
  | i :: rest =>
      match queue st !! i with
      | Some u => land rest (run_upsert u (set_queue (delete i (queue st)) st))
      | None => land rest st
      end
  end.

(** A statement the program waits for ([db.get], or [wordCountDb.run] in a
    promise): by the time it is answered the driver has executed the queued
    upserts of its choice; the promise rejects with the driver's error.
    Upserts the driver executes while the program waits for a call to Notion
    are counted at the next statement it waits for: nothing reads the table
    [pages] in between. *)
Definition sql (stmt : SqlStmt) : M unit :=
  emit (Sql stmt) ;;;
  st <- get_state ;;
  modify (land (sqlite_schedule env (trace st) (world st))) ;;;
  match sqlite_error env stmt (world st) with
  | Some err => throw err
  | None => ret tt
  end.

(** [getStoredLastEditedTime]: [row ? row.last_edited_time : null]. *)
Definition getStoredLastEditedTime (pageId : string) : M (option string) :=
  sql (SelectLastEdited pageId) ;;;
  st <- get_state ;;
  ret (match pages st !! pageId with
       | Some row => Some (row_last_edited_time row)
       | None => None
       end).

(** [updateSQLiteDatabase]: [db.run] puts the statement in the queue and
    returns; the callback runs when the driver executes it ([run_upsert]). *)
Definition updateSQLiteDatabase (pageId lastEditedTime : string) (wordCount : Z)
  : M unit :=
  emit (Sql (UpsertPage pageId)) ;;;
  st <- get_state ;;
  modify (set_queue (queue st ++ [ {| upsert_id := pageId;
                                      upsert_time := lastEditedTime;
                                      upsert_count := wordCount |} ])).

(** [updatePageWordCount]: the [catch] logs and returns. *)
Definition updatePageWordCount (pageId : string) (wordCount : Z) : M unit :=
  try_catch
    (emit (CallPagesUpdate pageId wordCount) ;;;
     st <- get_state ;;
     let '(err, w) := pages_update env pageId wordCount (world st) in
     set_world w ;;;
     match err with
     | Some error => throw error
     | None => ret tt
     end)
    (fun error => emit (ConsoleError (FailedUpdateWordCount pageId error))).

(** [SELECT SUM(word_count) as total FROM pages]: NULL over no rows. *)
Definition sql_sum (m : gmap string Row) : option Z :=
  match map_to_list m with
  | [] => None
  | rows => Some (fold_left (fun acc kv => acc + row_word_count (snd kv)) rows 0)
  end.

(** [getTotalWordCount]: [row ? row.total || 0 : 0]. *)
Definition getTotalWordCount : M Z :=
  sql SelectSum ;;;
  st <- get_state ;;
  ret (match sql_sum (pages st) with
       | Some total => if total =? 0 then 0 else total
       | None => 0
       end).

(** [storeTotalWordCount]: one more row in [word_count_history]. *)
Definition storeTotalWordCount (totalWords : Z) : M unit :=
  sql InsertHistory ;;;
  st <- get_state ;;
  set_history (word_count_history st ++ [totalWords]).

(** [new Date(a) <= new Date(b)]: false when either date is invalid. *)
Definition Date_le (a b : string) : bool :=
  match Date_parse a, Date_parse b with
  | Some x, Some y => x <=? y
  | _, _ => false
  end.

(** [storedLastEditedTime && new Date(lastEditedTime) <= new Date(storedLastEditedTime)] *)
Definition already_crawled (storedLastEditedTime : option string)
           (lastEditedTime : string) : bool :=
  match storedLastEditedTime with
  | None => false
  | Some stored =>
      if String.eqb stored "" then false else Date_le lastEditedTime stored
  end.

(** The call [retrieveBlockChildren(pageId)] against the current world. *)
Definition retrieveBlockChildren_call (pageId : string) : M (list Block) :=
  emit (CallBlocksChildren pageId) ;;;
  st <- get_state ;;
  of_result (retrieveBlockChildren (blocks_children_list env pageId (world st))).

Definition pages_retrieve_call (pageId : string) : M Page :=
  emit (CallPagesRetrieve pageId) ;;;
  st <- get_state ;;
  of_result (pages_retrieve env pageId (world st)).

(** The body of [for (const page of databasePages)]. *)
Definition processPage (page : Page) : M unit :=
  let pageId := page_id page in
  let lastEditedTime := last_edited_time page in
  storedLastEditedTime <- getStoredLastEditedTime pageId ;;
  if already_crawled storedLastEditedTime lastEditedTime then
    emit (ConsoleLog (AlreadyCrawled (page_url page)))
  else
    blocks <- retrieveBlockChildren_call pageId ;;
    let wordCount := countWordsInBlocks word_char blocks in
    updatePageWordCount pageId wordCount ;;;
    emit (ConsoleLog (WordCountUpdated (page_url page))) ;;;
    updatedPage <- pages_retrieve_call pageId ;;
    let updatedLastEditedTime := last_edited_time updatedPage in
    updateSQLiteDatabase pageId updatedLastEditedTime wordCount.

Fixpoint forPages (databasePages : list Page) : M unit :=
  match databasePages with
  | [] => ret tt
  | page :: rest => processPage page ;;; forPages rest
  end.

Definition databases_query_call (startCursor : option string) : M QueryResponse :=
  emit (CallDatabasesQuery startCursor) ;;;
  st <- get_state ;;
  of_result (databases_query env startCursor (world st)).

(** [while (hasMore)]: one unit of fuel per request; [None] when the fuel
    does not suffice. *)
Fixpoint queryLoop (fuel : nat) (startCursor : option string) (st : State W)
  : option ((Error + unit) * State W) :=
  match fuel with
  | O => None
  | S fuel' =>
      match databases_query_call startCursor st with
      | (inl e, st1) => Some (inl e, st1)
      | (inr response, st1) =>
          match forPages (results response) st1 with
          | (inl e, st2) => Some (inl e, st2)
          | (inr _, st2) =>
              if has_more response then queryLoop fuel' (next_cursor response) st2
              else Some (inr tt, st2)
          end
      end
  end.

(** What follows the loop inside the [try]. *)
Definition storeTotal : M unit :=
  totalWords <- getTotalWordCount ;;
  storeTotalWordCount totalWords ;;;
  emit (ConsoleLog (TotalStored totalWords)).

(** The [try] block of [processDatabasePages]. *)
Definition processDatabasePages_try (fuel : nat) (st : State W)
  : option ((Error + unit) * State W) :=
  match queryLoop fuel None st with
  | None => None
  | Some (inl e, st1) => Some (inl e, st1)
  | Some (inr _, st1) => Some (storeTotal st1)
  end.

(** [processDatabasePages]: the [catch] logs the error. *)
Definition processDatabasePages (fuel : nat) (st : State W)
  : option ((Error + unit) * State W) :=
  match processDatabasePages_try fuel st with
  | None => None
  | Some (inl error, st1) => Some (emit (ConsoleError (FailedProcess error)) st1)
  | Some (inr u, st1) => Some (inr u, st1)
  end.

(** The handler of [GET /update_word_count]. *)
Definition update_word_count_route (fuel : nat) (st : State W)
  : option (Response * State W) :=
  match processDatabasePages fuel st with
  | None => None
  | Some (inr _, st1) =>
      Some (Json200 "Word count updated and stored in SQLite for all database pages.", st1)
  | Some (inl _, st1) =>
      Some (Json500 "Failed to update word count.", st1)
  end.

End Engine.

(** ** Sample instances of the parameters *)

Module Sample.

(** A parser for the UTC timestamps of the Notion API,
    [YYYY-MM-DDTHH:MM:SS.mmmZ], to milliseconds since the epoch; every
    other string is an invalid date. *)
Definition digit (a : ascii) : option Z :=
  let n := Z.of_N (N_of_ascii a) in
  if (48 <=? n) && (n <=? 57) then Some (n - 48) else None.

Fixpoint number (acc : Z) (ds : list ascii) : option Z :=
  match ds with
  | [] => Some acc
  | d :: r =>
      match digit d with
      | Some v => number (acc * 10 + v) r
      | None => None
      end
  end.

Definition is_char (a : ascii) (c : string) : bool := String.eqb (String a EmptyString) c.

Definition days_from_civil (y m d : Z) : Z :=
  let y' := if m <=? 2 then y - 1 else y in
  let era := y' / 400 in
  let yoe := y' - era * 400 in
  let mp := (m + 9) mod 12 in
  let doy := (153 * mp + 2) / 5 + d - 1 in
  let doe := yoe * 365 + yoe / 4 - yoe / 100 + doy in
  era * 146097 + doe - 719468.

Definition Date_parse (s : string) : option Z :=
  match list_ascii_of_string s with
  | [y1; y2; y3; y4; c1; m1; m2; c2; d1; d2; c3; h1; h2; c4; n1; n2; c5;
     s1; s2; c6; f1; f2; f3; c7] =>
      if is_char c1 "-" && is_char c2 "-" && is_char c3 "T" && is_char c4 ":"
         && is_char c5 ":" && is_char c6 "." && is_char c7 "Z"
      then
        match number 0 [y1; y2; y3; y4], number 0 [m1; m2], number 0 [d1; d2],
              number 0 [h1; h2], number 0 [n1; n2], number 0 [s1; s2],
              number 0 [f1; f2; f3] with
        | Some y, Some m, Some d, Some h, Some n, Some sec, Some f =>
            if (1 <=? m) && (m <=? 12) && (1 <=? d) && (d <=? 31)
               && (h <? 24) && (n <? 60) && (sec <? 60)
            then Some ((((days_from_civil y m d * 24 + h) * 60 + n) * 60 + sec) * 1000 + f)
            else None
        | _, _, _, _, _, _, _ => None
        end
      else None
  | _ => None
  end.

(** A character class that agrees with the Unicode one on ASCII and has no
    other member. *)
Definition word_char : N -> bool := ascii_alnum.

(** A remote workspace: one database that answers in a single response, the
    block listing of every page, and the faults to inject. *)
Record Remote := {
  listing_error : option Error;
  remote_pages : list Page;
  remote_blocks : list (string * Listing);
  update_rejected : list string;
  edit_stamp : string;
  sum_error : option Error;
  insert_error : option Error
}.

Definition touch (pageId stamp : string) (p : Page) : Page :=
  if String.eqb (page_id p) pageId
  then {| page_id := page_id p; last_edited_time := stamp; page_url := page_url p |}
  else p.

Definition find_page (pageId : string) (ps : list Page) : option Page :=
  List.find (fun p => String.eqb (page_id p) pageId) ps.

Fixpoint find_blocks (pageId : string) (bs : list (string * Listing)) : Listing :=
  match bs with
  | [] => LDone
  | (k, l) :: r => if String.eqb k pageId then l else find_blocks pageId r
  end.

(** The driver of this workspace is prompt: before it answers a statement
    it has executed every upsert in the queue, oldest first. *)
Definition env : Env Remote := {|
  databases_query := fun _ w =>
    match listing_error w with
    | Some e => inl e
    | None => inr {| results := remote_pages w; has_more := false; next_cursor := None |}
    end;
  blocks_children_list := fun pageId w => find_blocks pageId (remote_blocks w);
  pages_update := fun pageId _ w =>
    if existsb (String.eqb pageId) (update_rejected w)
    then (Some "validation_error"%string, w)
    else (None,
          {| listing_error := listing_error w;
             remote_pages := List.map (touch pageId (edit_stamp w)) (remote_pages w);
             remote_blocks := remote_blocks w;
             update_rejected := update_rejected w;
             edit_stamp := edit_stamp w;
             sum_error := sum_error w;
             insert_error := insert_error w |});
  pages_retrieve := fun pageId w =>
    match find_page pageId (remote_pages w) with
    | Some p => inr p
    | None => inl "object_not_found"%string
    end;
  sqlite_error := fun stmt w =>
    match stmt with
    | SelectSum => sum_error w
    | InsertHistory => insert_error w
    | _ => None
    end;
  sqlite_schedule := fun tr _ => repeat 0%nat (length tr)
|}.

Definition initial (w : Remote) (rows : gmap string Row) : State Remote :=
  {| world := w; pages := rows; queue := []; word_count_history := []; trace := [] |}.

(** Blocks and pages used in examples. *)
Definition paragraph (id : string) (t : string) (kids : bool) : Block :=
  {| block_id := id; block_type := "paragraph"; has_children := kids;
     payload := {| rich_text := Some [ {| plain_text := lit t |} ];
                   url := []; title := []; expression := [] |} |}.

Definition unsupported (id : string) (ty : string) (kids : bool) : Block :=
  {| block_id := id; block_type := ty; has_children := kids;
     payload := {| rich_text := None; url := []; title := []; expression := [] |} |}.

Definition blockA : Block := paragraph "A" "alpha" true.
Definition blockB : Block := paragraph "B" "beta" false.
Definition blockC : Block := paragraph "C" "gamma delta" false.

(** The document [[A(children: [B]), C]]. *)
Definition docABC : Listing :=
  LYield (Node blockA (LYield (Node blockB LDone) LDone))
    (LYield (Node blockC LDone) LDone).

Definition page1 : Page :=
  {| page_id := "p1"; last_edited_time := "2024-05-01T10:00:00.000Z";
     page_url := "https://www.notion.so/p1" |}.
Definition page2 : Page :=
  {| page_id := "p2"; last_edited_time := "2024-05-02T08:30:00.000Z";
     page_url := "https://www.notion.so/p2" |}.

Definition stamp_after : string := "2024-05-03T12:00:00.000Z".

(** Two pages, both with content, no fault. *)
Definition healthy : Remote :=
  {| listing_error := None;
     remote_pages := [page1; page2];
     remote_blocks := [("p1"%string, docABC);
                       ("p2"%string, LYield (Node blockC LDone) LDone)];
     update_rejected := [];
     edit_stamp := stamp_after;
     sum_error := None;
     insert_error := None |}.

(** The block listing of the first page fails after its first block. *)
Definition broken_walk : Remote :=
  {| listing_error := None;
     remote_pages := [page1; page2];
     remote_blocks := [("p1"%string, LYield (Node blockB LDone) (LFail "rate_limited"));
                       ("p2"%string, LYield (Node blockC LDone) LDone)];
     update_rejected := [];
     edit_stamp := stamp_after;
     sum_error := None;
     insert_error := None |}.

(** Notion rejects the update of the first page. *)
Definition rejected_write : Remote :=
  {| listing_error := None;
     remote_pages := [page1];
     remote_blocks := [("p1"%string, docABC)];
     update_rejected := ["p1"%string];
     edit_stamp := stamp_after;
     sum_error := None;
     insert_error := None |}.

(** The database query fails. *)
Definition broken_listing : Remote :=
  {| listing_error := Some "service_unavailable"%string;
     remote_pages := [page1];
     remote_blocks := [("p1"%string, docABC)];
     update_rejected := [];
     edit_stamp := stamp_after;
     sum_error := None;
     insert_error := None |}.

(** The driver fails on the sum, or on the insertion into the history. *)
Definition broken_sum : Remote :=
  {| listing_error := None;
     remote_pages := [];
     remote_blocks := [];
     update_rejected := [];
     edit_stamp := stamp_after;
     sum_error := Some "SQLITE_BUSY"%string;
     insert_error := None |}.

Definition broken_insert : Remote :=
  {| listing_error := None;
     remote_pages := [];
     remote_blocks := [];
     update_rejected := [];
     edit_stamp := stamp_after;
     sum_error := None;
     insert_error := Some "SQLITE_FULL"%string |}.

End Sample.
(** ** Notions used to state the properties *)

(** The same block with another [has_children] flag. *)
Definition set_has_children (v : bool) (b : Block) : Block :=
  {| block_id := block_id b; block_type := block_type b; has_children := v;
     payload := payload b |}.

(** Depth-first pre-order of a listing that does not fail: a block, then the
    descendants the program asks for (those of a block flagged
    [has_children]), then the blocks that follow it. *)
Fixpoint preorder (l : Listing) : list Block :=
  match l with
  | LDone => []
  | LFail _ => []
  | LYield (Node b kids) rest =>
      b :: (if has_children b then preorder kids else []) ++ preorder rest
  end.

(** A listing in which no request fails, as far as the walk goes. *)
Fixpoint listing_ok (l : Listing) : bool :=
  match l with
  | LDone => true
  | LFail _ => false
  | LYield (Node b kids) rest =>
      (if has_children b then listing_ok kids else true) && listing_ok rest
  end.

Scheme BlockNode_mut := Induction for BlockNode Sort Prop
  with Listing_mut := Induction for Listing Sort Prop.

(** The value [getStoredLastEditedTime] resolves to. *)
Definition stored_last_edited (rows : gmap string Row) (pageId : string) : option string :=
  match rows !! pageId with
  | Some row => Some (row_last_edited_time row)
  | None => None
  end.

(** Sum of [word_count] over all rows, 0 when there is none. *)
Definition sum_word_counts (rows : gmap string Row) : Z :=
  foldr Z.add 0 (List.map (fun kv => row_word_count (snd kv)) (map_to_list rows)).

(** The trace of a page that is walked, from the block listing to the
    second read of the page. *)
Definition reprocess_trace (page : Page) (wordCount : Z) (uerr : option Error)
  : list Event :=
  [CallBlocksChildren (page_id page);
   CallPagesUpdate (page_id page) wordCount]
  ++ match uerr with
     | Some e => [ConsoleError (FailedUpdateWordCount (page_id page) e)]
     | None => []
     end
  ++ [ConsoleLog (WordCountUpdated (page_url page));
      CallPagesRetrieve (page_id page)].

(** The lookup of a page's row appears in a trace. *)
Definition visited (pageId : string) (tr : list Event) : Prop :=
  In (Sql (SelectLastEdited pageId)) tr.

Section EngineNotions.
Context {W : Type} (env : Env W).
Variable Date_parse : string -> option Z.
Variable word_char : N -> bool.

(** The state in which the driver answers a statement the program waits
    for: the statement is in the trace and the driver has executed the
    queued upserts of its choice. *)
Definition awaited (stmt : SqlStmt) (st : State W) : State W :=
  land env (sqlite_schedule env (trace st ++ [Sql stmt]) (world st))
    (add_trace st [Sql stmt]).

(** The state in which the lookup of a page's row is answered. *)
Definition lookup_state (page : Page) (st : State W) : State W :=
  awaited (SelectLastEdited (page_id page)) st.

(** The state once the driver has executed every queued upsert, oldest
    first. *)
Definition settle (st : State W) : State W :=
  land env (repeat 0%nat (length (queue st))) st.

(** Both timestamps are valid dates and the first is not after the second. *)
Definition chrono_le (a b : string) : Prop :=
  exists x y, Date_parse a = Some x /\ Date_parse b = Some y /\ x <= y.

(** The state a skipped page leaves: the row was looked up and the skip
    logged; no call to Notion, no upsert. *)
Definition skip_outcome (page : Page) (st : State W) : State W :=
  add_trace (lookup_state page st) [ConsoleLog (AlreadyCrawled (page_url page))].

Definition skipped (page : Page) (st : State W) : Prop :=
  processPage env Date_parse word_char page st = (inr tt, skip_outcome page st).

(** What the pagination loop does after the pages of a response. *)
Definition rest_of_request (response : QueryResponse) (fuel : nat)
           (r : (Error + unit) * State W) : option ((Error + unit) * State W) :=
  match r with
  | (inl e, st2) => Some (inl e, st2)
  | (inr _, st2) =>
      if has_more response
      then queryLoop env Date_parse word_char fuel (next_cursor response) st2
      else Some (inr tt, st2)
  end.

(** The request with cursor [c] made in state [st] lists page [p], followed
    by [post], and reaches it in state [st1]; the loop skips [p]: it goes on
    to [post] from the state a skipped page leaves. *)
Definition engine_skips (c : option string) (st : State W)
           (response : QueryResponse) (post : list Page) (p : Page)
           (st1 : State W) : Prop :=
  skipped p st1
  /\ forPages env Date_parse word_char (p :: post) st1
     = forPages env Date_parse word_char post (skip_outcome p st1)
  /\ forall fuel,
       queryLoop env Date_parse word_char (S fuel) c st
       = rest_of_request response fuel
           (forPages env Date_parse word_char post (skip_outcome p st1)).

(** The pagination loop, started in [st0] with no cursor, arrives at the
    request with cursor [c] in state [st]. *)
Inductive reaches (st0 : State W) : option string -> State W -> Prop :=
| reaches_start : reaches st0 None st0
| reaches_next c st response st2 :
    reaches st0 c st ->
    databases_query env c (world st) = inr response ->
    forPages env Date_parse word_char (results response)
      (add_trace st [CallDatabasesQuery c]) = (inr tt, st2) ->
    has_more response = true ->
    reaches st0 (next_cursor response) st2.

(** C2 as the specification states it, for a run from [st]: when the walk
    of a listed page fails, the pages listed after it are still visited. *)
Definition traversal_failure_isolated (fuel : nat) (st : State W) : Prop :=
  forall response pre p post r stF,
    databases_query env None (world st) = inr response ->
    results response = pre ++ p :: post ->
    listing_ok (blocks_children_list env (page_id p) (world st)) = false ->
    processDatabasePages env Date_parse word_char fuel st = Some (r, stF) ->
    In (CallBlocksChildren (page_id p)) (trace stF) ->
    forall q, In q post -> visited (page_id q) (trace stF).

(** C4 as the specification states it, for one page: when Notion rejects
    the update, the row of the page stays as it was, also once the driver
    has executed what the page left in the queue. *)
Definition write_failure_keeps_row (page : Page) (st : State W) : Prop :=
  forall blocks e w',
    sqlite_error env (SelectLastEdited (page_id page)) (world st) = None ->
    already_crawled Date_parse
      (stored_last_edited (pages (lookup_state page st)) (page_id page))
      (last_edited_time page) = false ->
    retrieveBlockChildren (blocks_children_list env (page_id page) (world st))
    = inr blocks ->
    pages_update env (page_id page) (countWordsInBlocks word_char blocks) (world st)
    = (Some e, w') ->
    pages (settle (snd (processPage env Date_parse word_char page st))) !! page_id page
    = pages (settle st) !! page_id page.


End EngineNotions.

(** ** Further notions *)

(** The first code point of a text is in the character class. *)
Definition starts_with_word (word_char : N -> bool) (t : text) : bool :=
  match t with
  | c :: _ => word_char c
  | [] => false
  end.

(** Events that do no work on a page: no block listing, no update or read
    of a Notion page, no upsert issued for the table [pages]. *)
Definition quiet (ev : Event) : bool :=
  match ev with
  | CallBlocksChildren _ => false
  | CallPagesUpdate _ _ => false
  | CallPagesRetrieve _ => false
  | Sql (UpsertPage _) => false
  | _ => true
  end.

(** Every recorded word count is at least 0. *)
Definition rows_nonneg (rows : gmap string Row) : Prop :=
  forall pageId row, rows !! pageId = Some row -> 0 <= row_word_count row.

(** Texts made only of the characters of a number: a column of NUMERIC
    affinity, as [DATETIME] is, may store such a text as a number. *)
Definition numeric_looking (s : string) : bool :=
  forallb (fun a => existsb (Ascii.eqb a) (list_ascii_of_string "0123456789+-.eE "))
    (list_ascii_of_string s).

(** The ids of the upserts in a queue. *)
Definition queued_ids (q : list Upsert) : list string := List.map upsert_id q.

(** The sample workspace behind a driver that reports errors: every upsert
    is refused, and so is the lookup of the id ["locked"]. *)
Module SampleFaults.

Definition env : Env Sample.Remote := {|
  databases_query := databases_query Sample.env;
  blocks_children_list := blocks_children_list Sample.env;
  pages_update := pages_update Sample.env;
  pages_retrieve := pages_retrieve Sample.env;
  sqlite_error := fun stmt w =>
    match stmt with
    | UpsertPage _ => Some "SQLITE_READONLY"%string
    | SelectLastEdited pageId =>
        if String.eqb pageId "locked" then Some "SQLITE_BUSY"%string else None
    | _ => sqlite_error Sample.env stmt w
    end;
  sqlite_schedule := sqlite_schedule Sample.env
|}.

Definition locked_page : Page :=
  {| page_id := "locked"; last_edited_time := "2024-05-01T10:00:00.000Z";
     page_url := "https://www.notion.so/locked" |}.

(** A page that is listed but cannot be read back. *)
Definition ghost_page : Page :=
  {| page_id := "p9"; last_edited_time := "2024-05-01T10:00:00.000Z";
     page_url := "https://www.notion.so/p9" |}.

End SampleFaults.

(** The healthy workspace behind a database that answers one page per
    request: first [page1] with cursor ["c1"] to follow, then [page2]. *)
Module SamplePaged.

Definition env : Env Sample.Remote := {|
  databases_query := fun startCursor w =>
    match startCursor with
    | None =>
        inr {| results := List.firstn 1 (Sample.remote_pages w);
               has_more := true; next_cursor := Some "c1"%string |}
    | Some c =>
        if String.eqb c "c1"
        then inr {| results := List.skipn 1 (Sample.remote_pages w);
                    has_more := false; next_cursor := None |}
        else inl "validation_error"%string
    end;
  blocks_children_list := blocks_children_list Sample.env;
  pages_update := pages_update Sample.env;
  pages_retrieve := pages_retrieve Sample.env;
  sqlite_error := sqlite_error Sample.env;
  sqlite_schedule := sqlite_schedule Sample.env
|}.

End SamplePaged.

(** The sample workspace behind a driver that answers [SELECT SUM] before it
    executes what is in the queue, and is prompt otherwise. *)
Module SampleRace.

Definition env : Env Sample.Remote := {|
  databases_query := databases_query Sample.env;
  blocks_children_list := blocks_children_list Sample.env;
  pages_update := pages_update Sample.env;
  pages_retrieve := pages_retrieve Sample.env;
  sqlite_error := sqlite_error Sample.env;
  sqlite_schedule := fun tr w =>
    match last tr with
    | Some (Sql SelectSum) => []
    | _ => sqlite_schedule Sample.env tr w
    end
|}.

End SampleRace.

(** ** The tokenizer *)

Section TokenizerFacts.
Variable word_char : N -> bool.

Lemma scan_app_sep (cur s : text) (c : N) (t : text) :
  word_char c = false ->
  scan word_char cur (s ++ c :: t) = scan word_char cur s ++ scan word_char [] t.
Proof.
  intros Hc. revert cur.
  induction s as [|a s IH]; intros cur; simpl.
  - now rewrite Hc.
  - destruct (word_char a).
    + apply IH.
    + rewrite IH. now rewrite app_assoc.
Qed.

Lemma scan_no_word (ws : text) :
  (forall c, In c ws -> word_char c = false) -> scan word_char [] ws = [].
Proof.
  induction ws as [|c ws IH]; intros H; simpl; [reflexivity|].
  rewrite (H c) by now left.
  simpl. apply IH. intros d Hd. apply H. now right.
Qed.

Lemma scan_ext (g : N -> bool) (cur s : text) :
  (forall c, In c s -> word_char c = g c) ->
  scan word_char cur s = scan g cur s.
Proof.
  revert cur. induction s as [|a s IH]; intros cur H; simpl; [reflexivity|].
  rewrite (H a) by now left.
  assert (Hs : forall c, In c s -> word_char c = g c)
    by (intros d Hd; apply H; now right).
  destruct (g a); [now apply IH | now rewrite IH].
Qed.

Lemma countWordsInText_length (s : text) :
  countWordsInText word_char (Some s) = Z.of_nat (length (scan word_char [] s)).
Proof.
  unfold countWordsInText, String_match.
  destruct s as [|c s]; [reflexivity|].
  now destruct (scan word_char [] (c :: s)).
Qed.

Lemma countWordsInText_app_sep (s : text) (c : N) (t : text) :
  word_char c = false ->
  countWordsInText word_char (Some (s ++ c :: t))
  = countWordsInText word_char (Some s) + countWordsInText word_char (Some t).
Proof.
  intros Hc. rewrite !countWordsInText_length, scan_app_sep by exact Hc.
  rewrite length_app. lia.
Qed.

Lemma countWordsInBlocks_from (blocks : list Block) (acc : Z) :
  fold_left
    (fun totalWords block =>
       totalWords + countWordsInText word_char (Some (getTextFromBlock block)))
    blocks acc
  = acc + countWordsInBlocks word_char blocks.
Proof.
  unfold countWordsInBlocks. revert acc.
  induction blocks as [|b blocks IH]; intros acc; simpl; [lia|].
  rewrite IH, (IH (0 + _)). lia.
Qed.

Lemma countWordsInBlocks_cons (b : Block) (blocks : list Block) :
  countWordsInBlocks word_char (b :: blocks)
  = countWordsInText word_char (Some (getTextFromBlock b))
    + countWordsInBlocks word_char blocks.
Proof.
  unfold countWordsInBlocks at 1. simpl. rewrite countWordsInBlocks_from. lia.
Qed.

End TokenizerFacts.

(** Every code point of a literal is below U+0080. *)
Ltac ascii_literal H :=
  vm_compute in H;
  repeat (destruct H as [<- | H]; [reflexivity|]);
  destruct H.

Lemma white_space_not_alnum (c : N) : white_space c = true -> ascii_alnum c = false.
Proof.
  unfold white_space. rewrite existsb_exists. intros [x [Hin Heq]].
  apply N.eqb_eq in Heq. subst x.
  unfold white_space_points in Hin. simpl in Hin.
  repeat (destruct Hin as [<- | Hin]; [reflexivity|]).
  destruct Hin.
Qed.

Lemma lt_128_alnum (c : N) : (c < 128)%N -> Sample.word_char c = ascii_alnum c.
Proof. reflexivity. Qed.

Section TokenizerClaims.
Variable word_char : N -> bool.

(** The character class contains no white space. *)
Hypothesis word_char_space : forall c, white_space c = true -> word_char c = false.

(** Below U+0080 the character class is the ASCII letters and digits. *)
Hypothesis word_char_ascii : forall c, (c < 128)%N -> word_char c = ascii_alnum c.

Lemma scan_literal (cur : text) (s : string) :
  (forall c, In c (lit s) -> (c < 128)%N) ->
  scan word_char cur (lit s) = scan ascii_alnum cur (lit s).
Proof.
  intros H. apply scan_ext. intros c Hc. apply word_char_ascii, H, Hc.
Qed.

(** C8: [countWordsInText] is 0 on the empty string and on absent text,
    does not change when white space is appended to the text, and is 3 on
    ["Hello, world! 123"]. *)
Theorem countWordsInText_spec :
  countWordsInText word_char None = 0
  /\ countWordsInText word_char (Some []) = 0
  /\ (forall s ws : text,
        forallb white_space ws = true ->
        countWordsInText word_char (Some (s ++ ws))
        = countWordsInText word_char (Some s))
  /\ countWordsInText word_char (Some (lit "Hello, world! 123")) = 3.
Proof.
  split; [reflexivity|]. split; [reflexivity|]. split.
  - intros s ws Hws.
    destruct ws as [|c ws]; [now rewrite app_nil_r|].
    simpl in Hws. apply andb_true_iff in Hws as [Hc Hws].
    rewrite countWordsInText_app_sep by now apply word_char_space.
    rewrite (countWordsInText_length word_char ws), scan_no_word; [simpl; lia|].
    intros d Hd. apply word_char_space.
    rewrite forallb_forall in Hws. now apply Hws.
  - rewrite countWordsInText_length, scan_literal; [reflexivity|].
    intros c Hc. ascii_literal Hc.
Qed.

(** The annotation of a block with children is two words of its own. *)
Lemma suffix_two_words (t : text) :
  countWordsInText word_char (Some (t ++ has_children_suffix))
  = countWordsInText word_char (Some t) + 2.
Proof.
  change has_children_suffix with (32%N :: lit "(Has children)").
  rewrite countWordsInText_app_sep
    by (rewrite word_char_ascii; [reflexivity | reflexivity]).
  f_equal.
  rewrite countWordsInText_length, scan_literal; [reflexivity|].
  intros c Hc. ascii_literal Hc.
Qed.

(** C10: the annotation [" (Has children)"] of a block with children adds
    exactly 2 to the word count of that block, and so to the total of a
    document 2 for every block with children. *)
Theorem has_children_adds_two_words :
  (forall b : Block,
      has_children b = true ->
      countWordsInText word_char (Some (getTextFromBlock b))
      = countWordsInText word_char (Some (getTextFromBlock (set_has_children false b))) + 2)
  /\ (forall blocks : list Block,
        countWordsInBlocks word_char blocks
        = countWordsInBlocks word_char (List.map (set_has_children false) blocks)
          + 2 * Z.of_nat (length (List.filter has_children blocks))).
Proof.
  assert (Hone : forall b : Block,
    countWordsInText word_char (Some (getTextFromBlock b))
    = countWordsInText word_char (Some (getTextFromBlock (set_has_children false b)))
      + (if has_children b then 2 else 0)).
  { intros [i ty hc p]. unfold getTextFromBlock, switch_on_type. simpl.
    destruct hc; [apply suffix_two_words | lia]. }
  split.
  - intros b Hb. rewrite (Hone b), Hb. reflexivity.
  - induction blocks as [|b blocks IH]; [reflexivity|].
    simpl List.map. rewrite !countWordsInBlocks_cons, IH, (Hone b).
    simpl List.filter. destruct (has_children b); simpl length; lia.
Qed.

End TokenizerClaims.

(** C8 at the sample character class. *)
Lemma countWordsInText_spec_witness :
  countWordsInText Sample.word_char None = 0
  /\ countWordsInText Sample.word_char (Some []) = 0
  /\ (forall s ws : text,
        forallb white_space ws = true ->
        countWordsInText Sample.word_char (Some (s ++ ws))
        = countWordsInText Sample.word_char (Some s))
  /\ countWordsInText Sample.word_char (Some (lit "Hello, world! 123")) = 3.
Proof.
  apply (countWordsInText_spec Sample.word_char).
  - exact white_space_not_alnum.
  - exact lt_128_alnum.
Defined.

(** C10 at the sample character class and the block [A] of the sample
    document. *)
Lemma has_children_adds_two_words_witness :
  countWordsInText Sample.word_char (Some (getTextFromBlock Sample.blockA))
  = countWordsInText Sample.word_char
      (Some (getTextFromBlock (set_has_children false Sample.blockA))) + 2.
Proof.
  apply (proj1 (has_children_adds_two_words Sample.word_char lt_128_alnum)).
  reflexivity.
Defined.

Example count_blockA :
  countWordsInText Sample.word_char (Some (getTextFromBlock Sample.blockA)) = 3.
Proof. reflexivity. Qed.

Example count_docABC_blocks :
  countWordsInBlocks Sample.word_char [Sample.blockA; Sample.blockB; Sample.blockC] = 6.
Proof. reflexivity. Qed.

(** ** The text of a block *)

Lemma eqb_not_in (ty : string) (tags : list string) (t : string) :
  ~ In ty tags -> In t tags -> String.eqb ty t = false.
Proof.
  intros Hnot Hin. apply String.eqb_neq. intros ->. now apply Hnot.
Qed.

(** C9: a block whose type tag has no case of its own and whose payload has
    no [rich_text] yields the unsupported-block marker, followed by
    [" (Has children)"] if and only if [has_children] is true. *)
Theorem unsupported_block_text (b : Block) :
  ~ In (block_type b) recognized_types ->
  rich_text (payload b) = None ->
  getTextFromBlock b
  = unsupported_marker ++ (if has_children b then has_children_suffix else [])
  /\ (getTextFromBlock b = unsupported_marker ++ has_children_suffix
      <-> has_children b = true).
Proof.
  intros Hty Hrt.
  assert (Hsw : switch_on_type b = unsupported_marker).
  { unfold switch_on_type.
    rewrite !(eqb_not_in _ _ _ Hty) by (simpl; tauto).
    reflexivity. }
  assert (Htext : getTextFromBlock b
                  = unsupported_marker ++ (if has_children b then has_children_suffix else [])).
  { unfold getTextFromBlock. rewrite Hrt, Hsw.
    destruct (has_children b); [reflexivity | now rewrite app_nil_r]. }
  split; [exact Htext|].
  rewrite Htext. destruct (has_children b); split; intros H; try reflexivity.
  - apply app_inv_head in H. discriminate H.
  - discriminate H.
Qed.

(** C9 at a block of type ["table_of_contents"] with children. *)
Lemma unsupported_block_text_witness :
  getTextFromBlock (Sample.unsupported "t1" "table_of_contents" true)
  = lit "[Unsupported or non-text block] (Has children)".
Proof.
  refine (proj1 (unsupported_block_text
                   (Sample.unsupported "t1" "table_of_contents" true) _ _)).
  - vm_compute. intros H. repeat (destruct H as [H | H]; [discriminate H|]). exact H.
  - reflexivity.
Defined.

Example unsupported_leaf :
  getTextFromBlock (Sample.unsupported "t2" "unsupported" false)
  = lit "[Unsupported or non-text block]".
Proof. reflexivity. Qed.

(** ** The walk of the block tree *)

Lemma retrieveBlockChildren_from_acc (l : Listing) (acc : list Block) :
  retrieveBlockChildren_from l acc
  = match retrieveBlockChildren_from l [] with
    | inl e => inl e
    | inr bs => inr (acc ++ bs)
    end.
Proof.
  revert acc. induction l as [| e | [b kids] rest IH]; intros acc; simpl.
  - now rewrite app_nil_r.
  - reflexivity.
  - destruct (has_children b).
    + destruct (retrieveBlockChildren_from kids []) as [e | childBlocks]; [reflexivity|].
      rewrite (IH ((acc ++ [b]) ++ childBlocks)), (IH (b :: childBlocks)).
      destruct (retrieveBlockChildren_from rest []); [reflexivity|].
      now rewrite <- !app_assoc.
    + rewrite (IH (acc ++ [b])), (IH [b]).
      destruct (retrieveBlockChildren_from rest []); [reflexivity|].
      now rewrite <- !app_assoc.
Qed.

(** The walk of a block followed by its siblings. *)
Lemma retrieveBlockChildren_yield (b : Block) (kids rest : Listing) :
  retrieveBlockChildren (LYield (Node b kids) rest)
  = if has_children b then
      match retrieveBlockChildren kids with
      | inl e => inl e
      | inr ds =>
          match retrieveBlockChildren rest with
          | inl e => inl e
          | inr ss => inr (b :: ds ++ ss)
          end
      end
    else
      match retrieveBlockChildren rest with
      | inl e => inl e
      | inr ss => inr (b :: ss)
      end.
Proof.
  unfold retrieveBlockChildren. simpl.
  destruct (has_children b).
  - destruct (retrieveBlockChildren_from kids []) as [e | ds]; [reflexivity|].
    rewrite retrieveBlockChildren_from_acc.
    now destruct (retrieveBlockChildren_from rest []).
  - rewrite retrieveBlockChildren_from_acc.
    now destruct (retrieveBlockChildren_from rest []).
Qed.

Lemma retrieveBlockChildren_ok (l : Listing) :
  listing_ok l = true -> retrieveBlockChildren l = inr (preorder l).
Proof.
  induction l using Listing_mut
    with (P := fun n => match n with
                        | Node _ kids =>
                            listing_ok kids = true ->
                            retrieveBlockChildren kids = inr (preorder kids)
                        end).
  - exact IHl.
  - reflexivity.
  - discriminate.
  - destruct n as [b kids]. intros Hok. simpl in Hok.
    apply andb_true_iff in Hok as [Hkids Hrest].
    rewrite retrieveBlockChildren_yield, (IHl0 Hrest). simpl.
    destruct (has_children b); [|reflexivity].
    now rewrite (IHl Hkids).
Qed.

Lemma retrieveBlockChildren_fails (l : Listing) :
  listing_ok l = false -> exists e, retrieveBlockChildren l = inl e.
Proof.
  induction l using Listing_mut
    with (P := fun n => match n with
                        | Node _ kids =>
                            listing_ok kids = false ->
                            exists e, retrieveBlockChildren kids = inl e
                        end).
  - exact IHl.
  - discriminate.
  - intros _. now exists e.
  - destruct n as [b kids]. intros Hok. simpl in Hok.
    rewrite retrieveBlockChildren_yield.
    destruct (has_children b).
    + destruct (listing_ok kids) eqn:Hkids.
      * rewrite (retrieveBlockChildren_ok kids Hkids).
        destruct (IHl0 Hok) as [e ->]. now exists e.
      * destruct (IHl eq_refl) as [e ->]. now exists e.
    + destruct (IHl0 Hok) as [e ->]. now exists e.
Qed.

(** C7: the walk is depth-first pre-order.  A listing without failure is
    returned in pre-order; a block comes first, its descendants follow and
    are complete before the walk of its next sibling starts; and the document
    [[A(children: [B]), C]] is walked as [A, B, C]. *)
Theorem walk_preorder :
  (forall l, listing_ok l = true -> retrieveBlockChildren l = inr (preorder l))
  /\ (forall b kids rest ds ss,
        has_children b = true ->
        retrieveBlockChildren kids = inr ds ->
        retrieveBlockChildren rest = inr ss ->
        retrieveBlockChildren (LYield (Node b kids) rest) = inr (b :: ds ++ ss))
  /\ (forall b kids rest ss,
        has_children b = false ->
        retrieveBlockChildren rest = inr ss ->
        retrieveBlockChildren (LYield (Node b kids) rest) = inr (b :: ss))
  /\ retrieveBlockChildren Sample.docABC
     = inr [Sample.blockA; Sample.blockB; Sample.blockC].
Proof.
  split; [exact retrieveBlockChildren_ok|].
  split; [|split].
  - intros b kids rest ds ss Hb Hk Hr.
    now rewrite retrieveBlockChildren_yield, Hb, Hk, Hr.
  - intros b kids rest ss Hb Hr.
    now rewrite retrieveBlockChildren_yield, Hb, Hr.
  - reflexivity.
Qed.

(** C7 at a block [A] with child [B] followed by [C]. *)
Lemma walk_preorder_witness :
  retrieveBlockChildren
    (LYield (Node Sample.blockA (LYield (Node Sample.blockB LDone) LDone))
       (LYield (Node Sample.blockC LDone) LDone))
  = inr (Sample.blockA :: [Sample.blockB] ++ [Sample.blockC]).
Proof.
  apply (proj1 (proj2 walk_preorder)); reflexivity.
Defined.

(** ** The engine *)

Ltac unfold_engine :=
  unfold processPage, retrieveBlockChildren_call,
    updatePageWordCount, pages_retrieve_call, updateSQLiteDatabase,
    databases_query_call, storeTotal, getTotalWordCount, storeTotalWordCount,
    try_catch, bind, emit, modify, set_world, set_history, get_state,
    of_result, ret, throw, skip_outcome, stored_last_edited in *.

Ltac tidy_trace :=
  unfold add_trace, set_queue, set_pages; cbn; rewrite <- ?app_assoc; cbn.

Section EngineFacts.
Context {W : Type} (env : Env W).
Variable Date_parse : string -> option Z.
Variable word_char : N -> bool.

Local Abbreviation processPage := (processPage env Date_parse word_char).
Local Abbreviation forPages := (forPages env Date_parse word_char).
Local Abbreviation queryLoop := (queryLoop env Date_parse word_char).
Local Abbreviation processDatabasePages := (processDatabasePages env Date_parse word_char).
Local Abbreviation processDatabasePages_try := (processDatabasePages_try env Date_parse word_char).
Local Abbreviation update_word_count_route := (update_word_count_route env Date_parse word_char).
Local Abbreviation skipped := (skipped env Date_parse word_char).
Local Abbreviation engine_skips := (engine_skips env Date_parse word_char).
Local Abbreviation rest_of_request := (rest_of_request env Date_parse word_char).
Local Abbreviation reaches := (reaches env Date_parse word_char).
Local Abbreviation awaited := (awaited env).
Local Abbreviation lookup_state := (lookup_state env).
Local Abbreviation skip_outcome := (skip_outcome env).
Local Abbreviation settle := (settle env).
Local Abbreviation land := (land env).
Local Abbreviation run_upsert := (run_upsert env).

(** *** The driver *)

Lemma run_upsert_world (u : Upsert) (st : State W) :
  world (run_upsert u st) = world st.
Proof.
  unfold run_upsert.
  now destruct (sqlite_error env (UpsertPage (upsert_id u)) (world st)).
Qed.

Lemma run_upsert_history (u : Upsert) (st : State W) :
  word_count_history (run_upsert u st) = word_count_history st.
Proof.
  unfold run_upsert.
  now destruct (sqlite_error env (UpsertPage (upsert_id u)) (world st)).
Qed.

Lemma land_world (ps : list nat) (st : State W) : world (land ps st) = world st.
Proof.
  revert st. induction ps as [|i ps IH]; intros st; [reflexivity|].
  cbn. destruct (queue st !! i); [|apply IH].
  now rewrite IH, run_upsert_world.
Qed.

Lemma land_history (ps : list nat) (st : State W) :
  word_count_history (land ps st) = word_count_history st.
Proof.
  revert st. induction ps as [|i ps IH]; intros st; [reflexivity|].
  cbn. destruct (queue st !! i); [|apply IH].
  now rewrite IH, run_upsert_history.
Qed.

(** With nothing in the queue the driver has nothing to execute. *)
Lemma land_empty (ps : list nat) (st : State W) : queue st = [] -> land ps st = st.
Proof.
  intros Hq. induction ps as [|i ps IH]; [reflexivity|].
  cbn. now rewrite Hq.
Qed.

Lemma awaited_world (stmt : SqlStmt) (st : State W) : world (awaited stmt st) = world st.
Proof. exact (land_world _ (add_trace st [Sql stmt])). Qed.

Lemma awaited_history (stmt : SqlStmt) (st : State W) :
  word_count_history (awaited stmt st) = word_count_history st.
Proof. exact (land_history _ (add_trace st [Sql stmt])). Qed.

Lemma awaited_empty (stmt : SqlStmt) (st : State W) :
  queue st = [] -> awaited stmt st = add_trace st [Sql stmt].
Proof. intros Hq. exact (land_empty _ (add_trace st [Sql stmt]) Hq). Qed.

Lemma sql_eq (stmt : SqlStmt) (st : State W) :
  sql env stmt st
  = (match sqlite_error env stmt (world st) with
     | Some err => inl err
     | None => inr tt
     end, awaited stmt st).
Proof.
  unfold sql, bind, emit, get_state, modify, throw, ret. cbn.
  now destruct (sqlite_error env stmt (world st)).
Qed.

Lemma getStoredLastEditedTime_eq (pageId : string) (st : State W) :
  getStoredLastEditedTime env pageId st
  = (match sqlite_error env (SelectLastEdited pageId) (world st) with
     | Some err => inl err
     | None =>
         inr (stored_last_edited (pages (awaited (SelectLastEdited pageId) st)) pageId)
     end, awaited (SelectLastEdited pageId) st).
Proof.
  unfold getStoredLastEditedTime, bind. rewrite sql_eq.
  now destruct (sqlite_error env (SelectLastEdited pageId) (world st)).
Qed.

(** *** One page *)

(** From the lookup on: the state when the lookup is answered, with the
    world the lookup found. *)
Ltac from_lookup page st :=
  unfold processPage, bind; rewrite getStoredLastEditedTime_eq;
  unfold lookup_state;
  let Hw := fresh "Hw" in
  pose proof (awaited_world (SelectLastEdited (page_id page)) st) as Hw;
  revert Hw;
  generalize (awaited (SelectLastEdited (page_id page)) st);
  let s1 := fresh "s1" in
  intros s1 Hw; destruct s1 as [w1 p1 q1 h1 t1]; cbn in Hw; subst w1.

Lemma processPage_lookup_fails (page : Page) (st : State W) (e : Error) :
  sqlite_error env (SelectLastEdited (page_id page)) (world st) = Some e ->
  processPage page st = (inl e, lookup_state page st).
Proof.
  intros Hsql. unfold processPage, bind.
  now rewrite getStoredLastEditedTime_eq, Hsql.
Qed.

Lemma processPage_skip (page : Page) (st : State W) :
  sqlite_error env (SelectLastEdited (page_id page)) (world st) = None ->
  already_crawled Date_parse
    (stored_last_edited (pages (lookup_state page st)) (page_id page))
    (last_edited_time page) = true ->
  processPage page st = (inr tt, skip_outcome page st).
Proof.
  intros Hsql Hskip. unfold skip_outcome. revert Hskip. from_lookup page st.
  intros Hskip. rewrite Hsql. cbn in Hskip |- *. now rewrite Hskip.
Qed.

Lemma processPage_walk_fails (page : Page) (st : State W) (e : Error) :
  sqlite_error env (SelectLastEdited (page_id page)) (world st) = None ->
  already_crawled Date_parse
    (stored_last_edited (pages (lookup_state page st)) (page_id page))
    (last_edited_time page) = false ->
  retrieveBlockChildren (blocks_children_list env (page_id page) (world st)) = inl e ->
  processPage page st
  = (inl e, add_trace (lookup_state page st) [CallBlocksChildren (page_id page)]).
Proof.
  intros Hsql Hskip Hwalk. revert Hskip. from_lookup page st.
  intros Hskip. rewrite Hsql. cbn in Hskip |- *. rewrite Hskip.
  unfold_engine. cbn. now rewrite Hwalk.
Qed.

Lemma processPage_recorded (page : Page) (st : State W) (blocks : list Block)
      (uerr : option Error) (w' : W) (updated : Page) :
  let pageId := page_id page in
  let wordCount := countWordsInBlocks word_char blocks in
  sqlite_error env (SelectLastEdited pageId) (world st) = None ->
  already_crawled Date_parse
    (stored_last_edited (pages (lookup_state page st)) pageId)
    (last_edited_time page) = false ->
  retrieveBlockChildren (blocks_children_list env pageId (world st)) = inr blocks ->
  pages_update env pageId wordCount (world st) = (uerr, w') ->
  pages_retrieve env pageId w' = inr updated ->
  processPage page st
  = (inr tt,
     {| world := w';
        pages := pages (lookup_state page st);
        queue := queue (lookup_state page st)
                 ++ [ {| upsert_id := pageId;
                         upsert_time := last_edited_time updated;
                         upsert_count := wordCount |} ];
        word_count_history := word_count_history (lookup_state page st);
        trace := trace (lookup_state page st)
                 ++ reprocess_trace page wordCount uerr
                 ++ [Sql (UpsertPage pageId)] |}).
Proof.
  intros pageId wordCount Hsql Hskip Hwalk Hupd Hget.
  subst pageId wordCount. revert Hskip. from_lookup page st.
  intros Hskip. rewrite Hsql. cbn in Hskip |- *. rewrite Hskip.
  unfold_engine. cbn. rewrite Hwalk. cbn. rewrite Hupd. cbn.
  destruct uerr as [e|]; cbn; rewrite Hget; cbn;
    unfold reprocess_trace; tidy_trace; reflexivity.
Qed.

Lemma processPage_reread_fails (page : Page) (st : State W) (blocks : list Block)
      (uerr : option Error) (w' : W) (e : Error) :
  let pageId := page_id page in
  let wordCount := countWordsInBlocks word_char blocks in
  sqlite_error env (SelectLastEdited pageId) (world st) = None ->
  already_crawled Date_parse
    (stored_last_edited (pages (lookup_state page st)) pageId)
    (last_edited_time page) = false ->
  retrieveBlockChildren (blocks_children_list env pageId (world st)) = inr blocks ->
  pages_update env pageId wordCount (world st) = (uerr, w') ->
  pages_retrieve env pageId w' = inl e ->
  processPage page st
  = (inl e,
     {| world := w';
        pages := pages (lookup_state page st);
        queue := queue (lookup_state page st);
        word_count_history := word_count_history (lookup_state page st);
        trace := trace (lookup_state page st)
                 ++ reprocess_trace page wordCount uerr |}).
Proof.
  intros pageId wordCount Hsql Hskip Hwalk Hupd Hget.
  subst pageId wordCount. revert Hskip. from_lookup page st.
  intros Hskip. rewrite Hsql. cbn in Hskip |- *. rewrite Hskip.
  unfold_engine. cbn. rewrite Hwalk. cbn. rewrite Hupd. cbn.
  destruct uerr as [e'|]; cbn; rewrite Hget; cbn;
    unfold reprocess_trace; tidy_trace; reflexivity.
Qed.

(** Every outcome of a page that is not skipped, the lookup answered. *)
Lemma processPage_walk_cases (page : Page) (st : State W) :
  sqlite_error env (SelectLastEdited (page_id page)) (world st) = None ->
  already_crawled Date_parse
    (stored_last_edited (pages (lookup_state page st)) (page_id page))
    (last_edited_time page) = false ->
  exists evs issued,
    world (lookup_state page st) = world st
    /\ pages (snd (processPage page st)) = pages (lookup_state page st)
    /\ queue (snd (processPage page st)) = queue (lookup_state page st) ++ issued
    /\ word_count_history (snd (processPage page st))
       = word_count_history (lookup_state page st)
    /\ trace (snd (processPage page st))
       = trace (lookup_state page st) ++ CallBlocksChildren (page_id page) :: evs
    /\ (issued = []
        \/ exists u,
             issued = [u] /\ upsert_id u = page_id page /\ 0 <= upsert_count u
             /\ In (Sql (UpsertPage (page_id page))) evs).
Proof.
  intros Hsql Hskip.
  assert (Hnn : forall blocks, 0 <= countWordsInBlocks word_char blocks).
  { induction blocks as [|b blocks IH]; [reflexivity|].
    rewrite countWordsInBlocks_cons, countWordsInText_length. lia. }
  pose proof (awaited_world (SelectLastEdited (page_id page)) st) as Hworld.
  revert Hskip Hworld. from_lookup page st.
  intros Hskip _. rewrite Hsql. cbn in Hskip |- *. rewrite Hskip.
  unfold_engine. cbn.
  destruct (retrieveBlockChildren _) as [e | blocks]; cbn.
  { exists [], []. rewrite app_nil_r. repeat split; auto. }
  destruct (pages_update env _ _ _) as [[e|] w']; cbn;
    destruct (pages_retrieve env _ _); cbn.
  all: try (eexists; exists []; rewrite app_nil_r;
            split; [reflexivity|]; split; [reflexivity|]; split; [reflexivity|];
            split; [reflexivity|]; split; [tidy_trace; reflexivity|];
            left; reflexivity).
  all: eexists; eexists;
    split; [reflexivity|]; split; [reflexivity|]; split; [reflexivity|];
    split; [reflexivity|]; split; [tidy_trace; reflexivity|];
    right; eexists; split; [reflexivity|]; split; [reflexivity|];
    split; [apply Hnn|]; cbn; tauto.
Qed.

Lemma already_crawled_iff (rows : gmap string Row) (pageId t : string) :
  Date_parse "" = None ->
  already_crawled Date_parse (stored_last_edited rows pageId) t = true
  <-> exists row, rows !! pageId = Some row
                  /\ chrono_le Date_parse t (row_last_edited_time row).
Proof.
  intros Hempty. unfold already_crawled, stored_last_edited, Date_le, chrono_le.
  split.
  - destruct (rows !! pageId) as [row|]; [|discriminate].
    destruct (String.eqb _ _); [discriminate|].
    destruct (Date_parse t) as [x|]; [|discriminate].
    destruct (Date_parse (row_last_edited_time row)) as [y|] eqn:Hy; [|discriminate].
    intros Hle. exists row. split; [reflexivity|].
    exists x, y. rewrite Hy. repeat split. now apply Z.leb_le.
  - intros [row [-> [x [y [Hx [Hy Hle]]]]]].
    destruct (String.eqb_spec (row_last_edited_time row) "") as [Heq|_].
    + rewrite Heq, Hempty in Hy. discriminate.
    + rewrite Hx, Hy. now apply Z.leb_le.
Qed.

Lemma processPage_history (page : Page) (st : State W) :
  word_count_history (snd (processPage page st)) = word_count_history st.
Proof.
  destruct (sqlite_error env (SelectLastEdited (page_id page)) (world st)) as [e|] eqn:Hsql.
  - rewrite (processPage_lookup_fails page st e Hsql). apply awaited_history.
  - destruct (already_crawled Date_parse
                (stored_last_edited (pages (lookup_state page st)) (page_id page))
                (last_edited_time page)) eqn:Hc.
    + rewrite (processPage_skip page st Hsql Hc). apply awaited_history.
    + destruct (processPage_walk_cases page st Hsql Hc) as [evs [issued H]].
      destruct H as [_ [_ [_ [-> _]]]]. apply awaited_history.
Qed.

(** The driver, when all it has is executed. *)
Lemma settle_cons (st : State W) (u : Upsert) (q : list Upsert) :
  queue st = u :: q ->
  settle st = settle (run_upsert u (set_queue q st)).
Proof.
  intros Hq. unfold settle. rewrite Hq. cbn. rewrite Hq. cbn.
  replace (queue (run_upsert u (set_queue q st))) with q; [reflexivity|].
  unfold run_upsert, set_queue. cbn.
  now destruct (sqlite_error env (UpsertPage (upsert_id u)) (world st)).
Qed.

Lemma settle_empty (st : State W) : queue st = [] -> settle st = st.
Proof. intros Hq. now apply land_empty. Qed.

Lemma settle_queue (st : State W) : queue (settle st) = [].
Proof.
  remember (queue st) as q eqn:Hq. symmetry in Hq. revert st Hq.
  induction q as [|u q IH]; intros st Hq.
  - now rewrite settle_empty.
  - rewrite (settle_cons st u q Hq). apply IH.
    unfold run_upsert, set_queue. cbn.
    now destruct (sqlite_error env (UpsertPage (upsert_id u)) (world st)).
Qed.

Lemma settle_last (st : State W) (q : list Upsert) (u : Upsert) :
  queue st = q ++ [u] ->
  sqlite_error env (UpsertPage (upsert_id u)) (world st) = None ->
  pages (settle st) !! upsert_id u
  = Some {| row_last_edited_time := upsert_time u; row_word_count := upsert_count u |}.
Proof.
  revert st. induction q as [|a q IH]; intros st Hq Hok.
  - rewrite (settle_cons st u [] Hq), settle_empty.
    + unfold run_upsert. cbn. rewrite Hok. cbn. apply lookup_insert_eq.
    + unfold run_upsert. cbn. now rewrite Hok.
  - rewrite (settle_cons st a (q ++ [u]) Hq). apply IH.
    + unfold run_upsert, set_queue. cbn.
      now destruct (sqlite_error env (UpsertPage (upsert_id a)) (world st)).
    + now rewrite run_upsert_world.
Qed.

(** C5: when a page is walked, updated in Notion and read again without
    failure, the upsert handed to the driver for it holds the
    [last_edited_time] of the page as read after the update, in the world
    the update left, and the computed word count; no row is written by the
    page before the driver executes that statement, and once it has, the
    driver accepting it, the row of the page holds these two values. *)
Theorem snapshot_has_post_write_time (page : Page) (st : State W)
        (blocks : list Block) (w' : W) (updated : Page) :
  let pageId := page_id page in
  let wordCount := countWordsInBlocks word_char blocks in
  sqlite_error env (SelectLastEdited pageId) (world st) = None ->
  already_crawled Date_parse
    (stored_last_edited (pages (lookup_state page st)) pageId)
    (last_edited_time page) = false ->
  retrieveBlockChildren (blocks_children_list env pageId (world st)) = inr blocks ->
  pages_update env pageId wordCount (world st) = (None, w') ->
  pages_retrieve env pageId w' = inr updated ->
  sqlite_error env (UpsertPage pageId) w' = None ->
  exists st',
    processPage page st = (inr tt, st')
    /\ world st' = w'
    /\ pages st' = pages (lookup_state page st)
    /\ queue st'
       = queue (lookup_state page st)
         ++ [ {| upsert_id := pageId;
                 upsert_time := last_edited_time updated;
                 upsert_count := wordCount |} ]
    /\ pages (settle st') !! pageId
       = Some {| row_last_edited_time := last_edited_time updated;
                 row_word_count := wordCount |}.
Proof.
  intros pageId wordCount Hsql Hskip Hwalk Hupd Hget Hups.
  eexists. split.
  - exact (processPage_recorded page st blocks None w' updated
             Hsql Hskip Hwalk Hupd Hget).
  - pose proof (settle_last
                  {| world := w';
                     pages := pages (lookup_state page st);
                     queue := queue (lookup_state page st)
                              ++ [ {| upsert_id := pageId;
                                      upsert_time := last_edited_time updated;
                                      upsert_count := wordCount |} ];
                     word_count_history := word_count_history (lookup_state page st);
                     trace := trace (lookup_state page st)
                              ++ reprocess_trace page wordCount None
                              ++ [Sql (UpsertPage pageId)] |}
                  _ {| upsert_id := pageId;
                       upsert_time := last_edited_time updated;
                       upsert_count := wordCount |} eq_refl Hups) as Hrow.
    cbn [upsert_id upsert_time upsert_count] in Hrow.
    split; [reflexivity|]. split; [reflexivity|]. split; [reflexivity|].
    exact Hrow.
Qed.

(** C4, amended: when Notion rejects the update of a page, the error is
    logged by [updatePageWordCount] and the page is handled like any other:
    it is read again and an upsert is issued for it with the timestamp read
    and the computed word count, which the driver writes to the row of the
    page when it executes it; a later listing of the page with that
    timestamp is then skipped. *)
Theorem write_failure_row_written (page : Page) (st : State W)
        (blocks : list Block) (e : Error) (w' : W) (updated : Page) :
  let pageId := page_id page in
  let wordCount := countWordsInBlocks word_char blocks in
  sqlite_error env (SelectLastEdited pageId) (world st) = None ->
  already_crawled Date_parse
    (stored_last_edited (pages (lookup_state page st)) pageId)
    (last_edited_time page) = false ->
  retrieveBlockChildren (blocks_children_list env pageId (world st)) = inr blocks ->
  pages_update env pageId wordCount (world st) = (Some e, w') ->
  pages_retrieve env pageId w' = inr updated ->
  sqlite_error env (UpsertPage pageId) w' = None ->
  exists st',
    processPage page st = (inr tt, st')
    /\ In (ConsoleError (FailedUpdateWordCount pageId e)) (trace st')
    /\ queue st'
       = queue (lookup_state page st)
         ++ [ {| upsert_id := pageId;
                 upsert_time := last_edited_time updated;
                 upsert_count := wordCount |} ]
    /\ pages (settle st') !! pageId
       = Some {| row_last_edited_time := last_edited_time updated;
                 row_word_count := wordCount |}
    /\ (forall next : Page,
          page_id next = pageId ->
          last_edited_time next = last_edited_time updated ->
          Date_parse "" = None ->
          is_Some (Date_parse (last_edited_time updated)) ->
          sqlite_error env (SelectLastEdited pageId) (world st') = None ->
          skipped next (settle st')).
Proof.
  intros pageId wordCount Hsql Hskip Hwalk Hupd Hget Hups.
  eexists. split.
  - exact (processPage_recorded page st blocks (Some e) w' updated
             Hsql Hskip Hwalk Hupd Hget).
  - pose proof (settle_last
                  {| world := w';
                     pages := pages (lookup_state page st);
                     queue := queue (lookup_state page st)
                              ++ [ {| upsert_id := pageId;
                                      upsert_time := last_edited_time updated;
                                      upsert_count := wordCount |} ];
                     word_count_history := word_count_history (lookup_state page st);
                     trace := trace (lookup_state page st)
                              ++ reprocess_trace page wordCount (Some e)
                              ++ [Sql (UpsertPage pageId)] |}
                  _ {| upsert_id := pageId;
                       upsert_time := last_edited_time updated;
                       upsert_count := wordCount |} eq_refl Hups) as Hrow.
    cbn [upsert_id upsert_time upsert_count] in Hrow.
    split; [|split; [reflexivity|split; [exact Hrow|]]].
    + cbn. apply in_or_app. right. unfold reprocess_trace. cbn. tauto.
    + intros next Hid Htime Hempty [x Hx] Hsql'. red.
      apply processPage_skip; rewrite Hid.
      * unfold settle. rewrite land_world. exact Hsql'.
      * apply already_crawled_iff; [exact Hempty|].
        unfold lookup_state. rewrite awaited_empty by apply settle_queue.
        cbn. rewrite ?Hid.
        eexists. split; [exact Hrow|]. cbn.
        exists x, x. rewrite Htime. repeat split; try exact Hx. lia.
Qed.

(** *** The loops *)

Lemma forPages_app (pre rest : list Page) (st : State W) :
  forPages (pre ++ rest) st
  = match forPages pre st with
    | (inl e, st') => (inl e, st')
    | (inr _, st') => forPages rest st'
    end.
Proof.
  revert st. induction pre as [|p pre IH]; intros st; [reflexivity|].
  cbn. unfold bind.
  destruct (processPage p st) as [[e | u] st']; [reflexivity|]. apply IH.
Qed.

Lemma forPages_cons (p : Page) (rest : list Page) (st : State W) :
  forPages (p :: rest) st
  = match processPage p st with
    | (inl e, st') => (inl e, st')
    | (inr _, st') => forPages rest st'
    end.
Proof. reflexivity. Qed.

Lemma forPages_history (ps : list Page) (st : State W) :
  word_count_history (snd (forPages ps st)) = word_count_history st.
Proof.
  revert st. induction ps as [|p ps IH]; intros st; [reflexivity|].
  rewrite forPages_cons. pose proof (processPage_history p st) as Hp.
  destruct (processPage p st) as [[e | u] st']; cbn in Hp |- *; [exact Hp|].
  now rewrite IH.
Qed.

Lemma databases_query_call_eq (c : option string) (st : State W) :
  databases_query_call env c st
  = (databases_query env c (world st), add_trace st [CallDatabasesQuery c]).
Proof.
  unfold_engine. cbn. now destruct (databases_query env c (world st)).
Qed.

Lemma queryLoop_S (fuel : nat) (c : option string) (st : State W) :
  queryLoop (S fuel) c st
  = match databases_query env c (world st) with
    | inl e => Some (inl e, add_trace st [CallDatabasesQuery c])
    | inr response =>
        rest_of_request response fuel
          (forPages (results response) (add_trace st [CallDatabasesQuery c]))
    end.
Proof.
  transitivity
    (match databases_query_call env c st with
     | (inl e, st1) => Some (inl e, st1)
     | (inr response, st1) =>
         match forPages (results response) st1 with
         | (inl e, st2) => Some (inl e, st2)
         | (inr _, st2) =>
             if has_more response then queryLoop fuel (next_cursor response) st2
             else Some (inr tt, st2)
         end
     end); [reflexivity|].
  rewrite databases_query_call_eq.
  destruct (databases_query env c (world st)); reflexivity.
Qed.

Lemma queryLoop_mono (fuel fuel' : nat) (c : option string) (st : State W) r :
  queryLoop fuel c st = Some r -> (fuel <= fuel')%nat -> queryLoop fuel' c st = Some r.
Proof.
  revert fuel' c st. induction fuel as [|fuel IH]; intros fuel' c st H Hle;
    [discriminate H|].
  destruct fuel' as [|fuel']; [lia|].
  rewrite queryLoop_S in H |- *.
  destruct (databases_query env c (world st)) as [e | response]; [exact H|].
  unfold rest_of_request in *.
  destruct (forPages (results response) _) as [[e | u] st2]; [exact H|].
  destruct (has_more response); [|exact H].
  apply IH; [exact H | lia].
Qed.

Lemma queryLoop_history (fuel : nat) (c : option string) (st : State W) r st' :
  queryLoop fuel c st = Some (r, st') ->
  word_count_history st' = word_count_history st.
Proof.
  revert c st. induction fuel as [|fuel IH]; intros c st H; [discriminate H|].
  rewrite queryLoop_S in H.
  destruct (databases_query env c (world st)) as [e | response].
  { injection H as _ <-. reflexivity. }
  pose proof (forPages_history (results response)
                (add_trace st [CallDatabasesQuery c])) as Hh.
  unfold rest_of_request in H.
  destruct (forPages (results response) _) as [[e | u] st2]; cbn in Hh.
  { injection H as _ <-. exact Hh. }
  destruct (has_more response).
  - rewrite (IH _ _ H). exact Hh.
  - injection H as _ <-. exact Hh.
Qed.

Lemma reaches_history (st0 : State W) (c : option string) (st : State W) :
  reaches st0 c st -> word_count_history st = word_count_history st0.
Proof.
  induction 1 as [| c st response st2 _ IH _ Hfor _]; [reflexivity|].
  pose proof (forPages_history (results response)
                (add_trace st [CallDatabasesQuery c])) as Hh.
  rewrite Hfor in Hh. cbn in Hh. now rewrite Hh.
Qed.

(** What the loop returns from a request it arrives at, it returns from
    the start, given enough fuel. *)
Lemma queryLoop_reaches (st0 : State W) (c : option string) (st : State W) :
  reaches st0 c st ->
  forall fuel r, queryLoop fuel c st = Some r ->
  exists n, forall fuel', (n <= fuel')%nat -> queryLoop fuel' None st0 = Some r.
Proof.
  induction 1 as [| c st response st2 _ IH Hq Hfor Hmore]; intros fuel r Hr.
  - exists fuel. intros fuel' Hle. now apply (queryLoop_mono fuel).
  - apply (IH (S fuel)). rewrite queryLoop_S, Hq, Hfor. cbn. now rewrite Hmore.
Qed.

Lemma processDatabasePages_never_throws (fuel : nat) (st : State W) e st' :
  processDatabasePages fuel st <> Some (inl e, st').
Proof.
  unfold processDatabasePages.
  destruct (processDatabasePages_try fuel st) as [[[e' | u] st1]|]; cbn; discriminate.
Qed.

(** The route never answers with status 500. *)
Lemma route_never_500 (fuel : nat) (st : State W) r st' :
  update_word_count_route fuel st = Some (r, st') ->
  r = Json200 "Word count updated and stored in SQLite for all database pages.".
Proof.
  unfold update_word_count_route.
  pose proof (processDatabasePages_never_throws fuel st) as Hnever.
  destruct (processDatabasePages fuel st) as [[[e | u] st1]|]; intros H.
  - exfalso. now apply (Hnever e st1).
  - now injection H as <- _.
  - discriminate H.
Qed.

(** The request of the loop that lists [p] after [pre], once [pre] is done:
    it goes on with [p]. *)
Lemma queryLoop_at_page (fuel : nat) (c : option string) (st : State W)
      (response : QueryResponse) (pre : list Page) (p : Page) (post : list Page)
      (st1 : State W) :
  databases_query env c (world st) = inr response ->
  results response = pre ++ p :: post ->
  forPages pre (add_trace st [CallDatabasesQuery c]) = (inr tt, st1) ->
  queryLoop (S fuel) c st
  = rest_of_request response fuel
      (match processPage p st1 with
       | (inl e, st2) => (inl e, st2)
       | (inr _, st2) => forPages post st2
       end).
Proof.
  intros Hq Hres Hpre.
  now rewrite queryLoop_S, Hq, Hres, forPages_app, Hpre, forPages_cons.
Qed.

(** C1: for every request of the loop and every page of its response that
    the loop reaches, the loop skips the page (its row is looked up, the
    skip is logged and the loop goes on to the next page: no call to Notion,
    no word count, no upsert) if and only if the table, as the driver holds
    it when it answers the lookup, has a row for the page's id whose
    [last_edited_time] is a date not before the page's current
    [last_edited_time]; equal timestamps skip; for a page that is not
    skipped the loop requests the block tree. *)
Theorem skip_rule (c : option string) (st : State W) (response : QueryResponse)
        (pre : list Page) (p : Page) (post : list Page) (st1 : State W) :
  databases_query env c (world st) = inr response ->
  results response = pre ++ p :: post ->
  forPages pre (add_trace st [CallDatabasesQuery c]) = (inr tt, st1) ->
  Date_parse "" = None ->
  sqlite_error env (SelectLastEdited (page_id p)) (world st1) = None ->
  (engine_skips c st response post p st1
   <-> exists row, pages (lookup_state p st1) !! page_id p = Some row
                   /\ chrono_le Date_parse (last_edited_time p)
                        (row_last_edited_time row))
  /\ (forall row,
        pages (lookup_state p st1) !! page_id p = Some row ->
        row_last_edited_time row = last_edited_time p ->
        is_Some (Date_parse (last_edited_time p)) ->
        engine_skips c st response post p st1)
  /\ (~ engine_skips c st response post p st1 ->
      exists r st2 evs,
        processPage p st1 = (r, st2)
        /\ trace st2
           = trace (lookup_state p st1) ++ CallBlocksChildren (page_id p) :: evs
        /\ forall fuel,
             queryLoop (S fuel) c st
             = rest_of_request response fuel
                 (match r with
                  | inl e => (inl e, st2)
                  | inr _ => forPages post st2
                  end)).
Proof.
  intros Hq Hres Hpre Hempty Hsql.
  assert (Hiff : engine_skips c st response post p st1
                 <-> already_crawled Date_parse
                       (stored_last_edited (pages (lookup_state p st1)) (page_id p))
                       (last_edited_time p) = true).
  { split.
    - intros [Hs _].
      destruct (already_crawled _ _ _) eqn:Hc; [reflexivity|].
      destruct (processPage_walk_cases p st1 Hsql Hc) as [evs [issued H]].
      destruct H as [_ [_ [_ [_ [Hevs _]]]]].
      red in Hs. rewrite Hs in Hevs. cbn in Hevs.
      apply app_inv_head in Hevs. discriminate Hevs.
    - intros Hc. pose proof (processPage_skip p st1 Hsql Hc) as Hs.
      split; [exact Hs|]. split.
      + now rewrite forPages_cons, Hs.
      + intros fuel.
        now rewrite (queryLoop_at_page fuel c st response pre p post st1 Hq Hres Hpre), Hs. }
  split; [|split].
  - rewrite Hiff. now apply already_crawled_iff.
  - intros row Hrow Heq [x Hx]. apply Hiff, already_crawled_iff; [exact Hempty|].
    exists row. split; [exact Hrow|].
    exists x, x. rewrite Heq. repeat split; try exact Hx. lia.
  - intros Hnot.
    assert (Hc : already_crawled Date_parse
                   (stored_last_edited (pages (lookup_state p st1)) (page_id p))
                   (last_edited_time p) = false).
    { destruct (already_crawled _ _ _) eqn:Hc; [|reflexivity].
      exfalso. apply Hnot, Hiff. reflexivity. }
    destruct (processPage_walk_cases p st1 Hsql Hc) as [evs [issued H]].
    destruct H as [_ [_ [_ [_ [Hevs _]]]]].
    pose proof (queryLoop_at_page) as Hloop.
    specialize (fun fuel => Hloop fuel c st response pre p post st1 Hq Hres Hpre).
    destruct (processPage p st1) as [r st2]. cbn in Hevs.
    exists r, st2, evs. split; [reflexivity|]. split; [exact Hevs|].
    intros fuel. rewrite Hloop. now destruct r.
Qed.

(** C2, amended: when the walk of a page fails, no upsert is issued for
    that page and its row stays as it was, but nothing catches the error at
    the page: it leaves the loop over the listed pages and the pagination
    loop and reaches the handler around the whole of [processDatabasePages],
    which logs it and returns; no page after the failing one is looked at
    and no history entry is added in that run. *)
Theorem traversal_failure_ends_run (st0 : State W) (c : option string)
        (st : State W) (response : QueryResponse) (pre : list Page) (p : Page)
        (post : list Page) (st1 : State W) (e : Error) :
  reaches st0 c st ->
  databases_query env c (world st) = inr response ->
  results response = pre ++ p :: post ->
  forPages pre (add_trace st [CallDatabasesQuery c]) = (inr tt, st1) ->
  sqlite_error env (SelectLastEdited (page_id p)) (world st1) = None ->
  already_crawled Date_parse
    (stored_last_edited (pages (lookup_state p st1)) (page_id p))
    (last_edited_time p) = false ->
  retrieveBlockChildren (blocks_children_list env (page_id p) (world st1)) = inl e ->
  word_count_history (lookup_state p st1) = word_count_history st0
  /\ exists n, forall fuel, (n <= fuel)%nat ->
       processDatabasePages_try fuel st0
       = Some (inl e,
               {| world := world (lookup_state p st1);
                  pages := pages (lookup_state p st1);
                  queue := queue (lookup_state p st1);
                  word_count_history := word_count_history (lookup_state p st1);
                  trace := trace (lookup_state p st1)
                           ++ [CallBlocksChildren (page_id p)] |})
       /\ processDatabasePages fuel st0
          = Some (inr tt,
                  {| world := world (lookup_state p st1);
                     pages := pages (lookup_state p st1);
                     queue := queue (lookup_state p st1);
                     word_count_history := word_count_history (lookup_state p st1);
                     trace := trace (lookup_state p st1)
                              ++ [CallBlocksChildren (page_id p);
                                  ConsoleError (FailedProcess e)] |}).
Proof.
  intros Hreach Hq Hres Hpre Hsql Hskip Hwalk. split.
  - pose proof (forPages_history pre (add_trace st [CallDatabasesQuery c])) as Hh.
    rewrite Hpre in Hh. cbn in Hh.
    unfold lookup_state. rewrite awaited_history.
    now rewrite Hh, (reaches_history _ _ _ Hreach).
  - assert (Hloop : queryLoop 1 c st
                    = Some (inl e, add_trace (lookup_state p st1)
                                     [CallBlocksChildren (page_id p)])).
    { rewrite (queryLoop_at_page 0 c st response pre p post st1 Hq Hres Hpre).
      now rewrite (processPage_walk_fails p st1 e Hsql Hskip Hwalk). }
    destruct (queryLoop_reaches _ _ _ Hreach _ _ Hloop) as [n Hn].
    exists n. intros fuel Hle.
    unfold processDatabasePages, processDatabasePages_try.
    rewrite (Hn fuel Hle). split; [reflexivity|].
    unfold emit, add_trace. cbn. now rewrite <- app_assoc.
Qed.

(** *** The total *)

Lemma fold_left_sum {A} (f : A -> Z) (l : list A) (acc : Z) :
  fold_left (fun a x => a + f x) l acc = acc + foldr Z.add 0 (List.map f l).
Proof.
  revert acc. induction l as [|x l IH]; intros acc; cbn; [lia|].
  rewrite IH. lia.
Qed.

Lemma total_or_zero (rows : gmap string Row) :
  match sql_sum rows with
  | Some total => if total =? 0 then 0 else total
  | None => 0
  end = sum_word_counts rows.
Proof.
  unfold sql_sum, sum_word_counts.
  destruct (map_to_list rows) as [|kv l]; [reflexivity|].
  rewrite fold_left_sum.
  destruct (Z.eqb_spec (0 + foldr Z.add 0 (List.map (fun kv => row_word_count (snd kv)) (kv :: l))) 0)
    as [Heq|_]; lia.
Qed.

Lemma getTotalWordCount_eq (st : State W) :
  getTotalWordCount env st
  = (match sqlite_error env SelectSum (world st) with
     | Some err => inl err
     | None => inr (sum_word_counts (pages (awaited SelectSum st)))
     end, awaited SelectSum st).
Proof.
  unfold getTotalWordCount, bind. rewrite sql_eq.
  destruct (sqlite_error env SelectSum (world st)); [reflexivity|].
  cbn. now rewrite total_or_zero.
Qed.

Lemma storeTotalWordCount_eq (totalWords : Z) (st : State W) :
  storeTotalWordCount env totalWords st
  = match sqlite_error env InsertHistory (world st) with
    | Some err => (inl err, awaited InsertHistory st)
    | None =>
        (inr tt,
         {| world := world (awaited InsertHistory st);
            pages := pages (awaited InsertHistory st);
            queue := queue (awaited InsertHistory st);
            word_count_history := word_count_history st ++ [totalWords];
            trace := trace (awaited InsertHistory st) |})
    end.
Proof.
  unfold storeTotalWordCount, bind. rewrite sql_eq.
  destruct (sqlite_error env InsertHistory (world st)); [reflexivity|].
  cbn. now rewrite awaited_history.
Qed.



End EngineFacts.

(** ** The sample workspace *)

Section SampleRuns.
Import Sample.

Local Abbreviation one_page := (processPage env Date_parse word_char).
Local Abbreviation run := (processDatabasePages env Date_parse word_char).
Local Abbreviation route := (update_word_count_route env Date_parse word_char).
Local Abbreviation skipped := (skipped env Date_parse word_char).
Local Abbreviation ok_message :=
  "Word count updated and stored in SQLite for all database pages."%string.

(** A first run over the healthy workspace, whose driver is prompt: both
    pages are counted, their rows carry the timestamp the update assigned,
    not the listed one, and the total is appended. *)
Example first_run :
  exists st,
    run 1 (initial healthy ∅) = Some (inr tt, st)
    /\ pages st !! "p1"%string
       = Some {| row_last_edited_time := stamp_after; row_word_count := 6 |}
    /\ pages st !! "p2"%string
       = Some {| row_last_edited_time := stamp_after; row_word_count := 2 |}
    /\ queue st = []
    /\ word_count_history st = [8].
Proof.
  eexists. split; [vm_compute; reflexivity|].
  repeat split; vm_compute; reflexivity.
Qed.

(** The same run behind the driver that answers [SELECT SUM] first: the
    upsert of the last page is still in the queue when the sum is taken, so
    the entry appended is 6 although the table the run leaves sums to 8. *)
Example racing_run :
  exists st,
    processDatabasePages SampleRace.env Date_parse word_char 1 (initial healthy ∅)
    = Some (inr tt, st)
    /\ word_count_history st = [6]
    /\ queue st = []
    /\ sum_word_counts (pages st) = 8.
Proof.
  eexists. split; [vm_compute; reflexivity|].
  repeat split; vm_compute; reflexivity.
Qed.

(** C1 at the first page of the listing, whose row holds the page's current
    timestamp. *)
Lemma skip_rule_witness :
  engine_skips env Date_parse word_char None
    (initial healthy
       {[ "p1"%string := {| row_last_edited_time := "2024-05-01T10:00:00.000Z";
                            row_word_count := 6 |} ]})
    {| results := [page1; page2]; has_more := false; next_cursor := None |}
    [page2] page1
    (add_trace
       (initial healthy
          {[ "p1"%string := {| row_last_edited_time := "2024-05-01T10:00:00.000Z";
                               row_word_count := 6 |} ]})
       [CallDatabasesQuery None]).
Proof.
  refine (proj1 (proj2 (skip_rule env Date_parse word_char None _ _ [] page1 [page2] _
                          _ _ _ _ _)) _ _ _ _).
  - reflexivity.
  - reflexivity.
  - reflexivity.
  - reflexivity.
  - reflexivity.
  - vm_compute. reflexivity.
  - reflexivity.
  - eexists. vm_compute. reflexivity.
Defined.

(** C5 at the first page of the healthy workspace, never visited before. *)
Lemma snapshot_has_post_write_time_witness :
  exists st',
    one_page page1 (initial healthy ∅) = (inr tt, st')
    /\ queue st' = [ {| upsert_id := "p1"; upsert_time := stamp_after;
                        upsert_count := 6 |} ]
    /\ pages (settle env st') !! "p1"%string
       = Some {| row_last_edited_time := stamp_after; row_word_count := 6 |}.
Proof.
  edestruct (snapshot_has_post_write_time env Date_parse word_char page1
               (initial healthy ∅)) as [st' [Hrun [_ [_ [Hq Hrow]]]]].
  - reflexivity.
  - reflexivity.
  - reflexivity.
  - reflexivity.
  - reflexivity.
  - reflexivity.
  - exists st'. split; [exact Hrun|]. split; [exact Hq | exact Hrow].
Defined.

(** C4, as stated, fails: Notion rejects the update of the page, and the
    page, which had no row, has one once the driver has executed the upsert
    the page issued all the same. *)
Lemma write_failure_keeps_row_counterexample :
  ~ write_failure_keeps_row env Date_parse word_char page1 (initial rejected_write ∅).
Proof.
  intros H.
  specialize (H [blockA; blockB; blockC] "validation_error"%string rejected_write
                eq_refl eq_refl eq_refl eq_refl).
  vm_compute in H. discriminate H.
Qed.

(** C4, amended, at that page: the rejection is logged, the upsert is
    issued and written, and the page is skipped when listed again
    unchanged. *)
Lemma write_failure_row_written_witness :
  exists st',
    one_page page1 (initial rejected_write ∅) = (inr tt, st')
    /\ In (ConsoleError (FailedUpdateWordCount "p1" "validation_error")) (trace st')
    /\ pages (settle env st') !! "p1"%string
       = Some {| row_last_edited_time := "2024-05-01T10:00:00.000Z";
                 row_word_count := 6 |}
    /\ skipped page1 (settle env st').
Proof.
  edestruct (write_failure_row_written env Date_parse word_char page1
               (initial rejected_write ∅)) as [st' [Hrun [Hlog [_ [Hrow Hnext]]]]].
  - reflexivity.
  - reflexivity.
  - reflexivity.
  - reflexivity.
  - reflexivity.
  - reflexivity.
  - exists st'. split; [exact Hrun|]. split; [exact Hlog|]. split; [exact Hrow|].
    apply Hnext.
    + reflexivity.
    + reflexivity.
    + reflexivity.
    + eexists. vm_compute. reflexivity.
    + reflexivity.
Defined.

(** C2, as stated, fails: the walk of the first page fails and the second
    page of the same listing is never looked at. *)
Lemma traversal_failure_isolated_counterexample :
  ~ traversal_failure_isolated env Date_parse word_char 1 (initial broken_walk ∅).
Proof.
  intros H.
  assert (Hrun : run 1 (initial broken_walk ∅)
                 = Some (inr tt,
                         {| world := broken_walk; pages := ∅; queue := [];
                            word_count_history := [];
                            trace := [CallDatabasesQuery None;
                                      Sql (SelectLastEdited "p1");
                                      CallBlocksChildren "p1";
                                      ConsoleError (FailedProcess "rate_limited")] |}))
    by (vm_compute; reflexivity).
  specialize (H _ [] page1 [page2] _ _ eq_refl eq_refl eq_refl Hrun).
  cbn in H.
  assert (Hv : visited "p2" [CallDatabasesQuery None;
                             Sql (SelectLastEdited "p1");
                             CallBlocksChildren "p1";
                             ConsoleError (FailedProcess "rate_limited")]).
  { apply (H ltac:(tauto) page2). now left. }
  unfold visited in Hv. cbn in Hv.
  repeat (destruct Hv as [Hv | Hv]; [discriminate Hv|]). exact Hv.
Qed.

(** C2, amended, at that run. *)
Lemma traversal_failure_ends_run_witness :
  exists n, forall fuel, (n <= fuel)%nat ->
    run fuel (initial broken_walk ∅)
    = Some (inr tt,
            {| world := broken_walk; pages := ∅; queue := [];
               word_count_history := [];
               trace := [CallDatabasesQuery None;
                         Sql (SelectLastEdited "p1");
                         CallBlocksChildren "p1";
                         ConsoleError (FailedProcess "rate_limited")] |}).
Proof.
  destruct (traversal_failure_ends_run env Date_parse word_char
              (initial broken_walk ∅) None (initial broken_walk ∅)
              {| results := [page1; page2]; has_more := false; next_cursor := None |}
              [] page1 [page2]
              (add_trace (initial broken_walk ∅) [CallDatabasesQuery None])
              "rate_limited"%string) as [_ [n Hn]].
  - apply reaches_start.
  - reflexivity.
  - reflexivity.
  - reflexivity.
  - reflexivity.
  - reflexivity.
  - reflexivity.
  - exists n. intros fuel Hle. exact (proj2 (Hn fuel Hle)).
Defined.



(** C3: the route answers 200 with the success message when the listing
    fails, when the sum fails and when the insertion into the history
    fails; the error is only logged. *)
Theorem failed_run_answers_200 :
  route 1 (initial broken_listing ∅)
  = Some (Json200 ok_message,
          {| world := broken_listing; pages := ∅; queue := [];
             word_count_history := [];
             trace := [CallDatabasesQuery None;
                       ConsoleError (FailedProcess "service_unavailable")] |})
  /\ route 1 (initial broken_sum ∅)
     = Some (Json200 ok_message,
             {| world := broken_sum; pages := ∅; queue := [];
                word_count_history := [];
                trace := [CallDatabasesQuery None; Sql SelectSum;
                          ConsoleError (FailedProcess "SQLITE_BUSY")] |})
  /\ route 1 (initial broken_insert ∅)
     = Some (Json200 ok_message,
             {| world := broken_insert; pages := ∅; queue := [];
                word_count_history := [];
                trace := [CallDatabasesQuery None; Sql SelectSum; Sql InsertHistory;
                          ConsoleError (FailedProcess "SQLITE_FULL")] |}).
Proof.
  repeat split; vm_compute; reflexivity.
Qed.

(** A second run with no edit in between skips every page and appends the
    same total. *)
Example second_run :
  exists st1 st2,
    run 1 (initial healthy ∅) = Some (inr tt, st1)
    /\ run 1 st1 = Some (inr tt, st2)
    /\ pages st2 = pages st1
    /\ word_count_history st2 = [8; 8].
Proof.
  eexists. eexists. split; [vm_compute; reflexivity|].
  split; [vm_compute; reflexivity|].
  split; vm_compute; reflexivity.
Qed.

End SampleRuns.
(** ** More on the tokenizer *)

Section TokenizerMore.
Variable word_char : N -> bool.

Lemma scan_runs (cur s : text) :
  Forall (fun c => word_char c = true) cur ->
  Forall (fun m => m <> [] /\ Forall (fun c => word_char c = true) m)
    (scan word_char cur s)
  /\ concat (scan word_char cur s) = cur ++ List.filter word_char s.
Proof.
  revert cur. induction s as [|c s IH]; intros cur Hcur; simpl.
  - destruct cur as [|a cur]; simpl.
    + split; [constructor | reflexivity].
    + split; [|now rewrite ?app_nil_r].
      constructor; [|constructor]. split; [discriminate | exact Hcur].
  - destruct (word_char c) eqn:Hc.
    + destruct (IH (cur ++ [c])) as [Hall Hcat].
      { apply Forall_app. split; [exact Hcur|]. constructor; [exact Hc | constructor]. }
      split; [exact Hall|]. rewrite Hcat. now rewrite <- app_assoc.
    + destruct (IH []) as [Hall Hcat]; [constructor|].
      destruct cur as [|a cur]; simpl.
      * split; assumption.
      * split.
        -- constructor; [|exact Hall]. split; [discriminate | exact Hcur].
        -- rewrite Hcat. now rewrite ?app_nil_r.
Qed.

(** X1: the matches of the regular expression are non-empty runs of
    characters of the class, and put end to end they are exactly the
    characters of the class in the text, in order. *)
Theorem matches_are_the_word_characters (s : text) :
  Forall (fun m => m <> [] /\ Forall (fun c => word_char c = true) m)
    (scan word_char [] s)
  /\ concat (scan word_char [] s) = List.filter word_char s.
Proof.
  apply (scan_runs [] s). constructor.
Qed.

Lemma length_concat_nonempty (ms : list text) :
  Forall (fun m => m <> [] /\ Forall (fun c => word_char c = true) m) ms ->
  (length ms <= length (concat ms))%nat.
Proof.
  induction 1 as [|m ms [Hm _] _ IH]; simpl; [lia|].
  rewrite length_app. destruct m; [congruence|]. simpl. lia.
Qed.

(** X2: the count is at least 0 and at most the number of characters of the
    class in the text; it is 0 exactly when the text has no such
    character. *)
Theorem countWordsInText_bounds (s : text) :
  0 <= countWordsInText word_char (Some s)
       <= Z.of_nat (length (List.filter word_char s))
  /\ (countWordsInText word_char (Some s) = 0
      <-> forall c, In c s -> word_char c = false).
Proof.
  rewrite countWordsInText_length.
  destruct (scan_runs [] s ltac:(constructor)) as [Hall Hcat]. cbn [app] in Hcat.
  pose proof (length_concat_nonempty _ Hall) as Hlen. rewrite Hcat in Hlen.
  split; [lia|]. split.
  - intros Hzero c Hc.
    destruct (word_char c) eqn:Hw; [|reflexivity].
    assert (Hin : In c (List.filter word_char s)) by (apply filter_In; now split).
    rewrite <- Hcat in Hin.
    destruct (scan word_char [] s); [destruct Hin | simpl in Hzero; lia].
  - intros Hnone. now rewrite scan_no_word.
Qed.

Lemma scan_cur_irrelevant (cur cur' s : text) :
  cur <> [] -> cur' <> [] ->
  length (scan word_char cur s) = length (scan word_char cur' s).
Proof.
  revert cur cur'. induction s as [|c s IH]; intros cur cur' H H'; simpl.
  - destruct cur, cur'; try (exfalso; now (apply H || apply H')); reflexivity.
  - destruct (word_char c).
    + apply IH; intros Heq; apply app_eq_nil in Heq as [_ Heq]; discriminate.
    + rewrite !length_app.
      destruct cur, cur'; try (exfalso; now (apply H || apply H')); reflexivity.
Qed.

Lemma scan_open_length (cur s : text) :
  cur <> [] ->
  length (scan word_char cur s)
  = (length (scan word_char [] s)
     + (if starts_with_word word_char s then 0 else 1))%nat.
Proof.
  intros Hcur. destruct s as [|c s]; simpl.
  - destruct cur; [now exfalso | reflexivity].
  - destruct (word_char c).
    + rewrite (scan_cur_irrelevant (cur ++ [c]) [c]); [lia | | discriminate].
      intros Heq; apply app_eq_nil in Heq as [_ Heq]; discriminate.
    + rewrite !length_app. destruct cur; [now exfalso | simpl; lia].
Qed.

Lemma scan_app_bounds (cur s t : text) :
  (length (scan word_char cur (s ++ t))
   <= length (scan word_char cur s) + length (scan word_char [] t)
   <= length (scan word_char cur (s ++ t)) + 1)%nat.
Proof.
  revert cur. induction s as [|c s IH]; intros cur; simpl.
  - destruct cur as [|a cur]; simpl; [lia|].
    rewrite (scan_open_length (a :: cur) t) by discriminate.
    destruct (starts_with_word word_char t); lia.
  - destruct (word_char c); [apply IH|].
    rewrite !length_app. specialize (IH []). lia.
Qed.

(** X3: putting two texts end to end, as the spans of a rich text are, gives
    the sum of their counts or one less (a word that runs across the join);
    with a character outside the class between them it gives the sum. *)
Theorem countWordsInText_app (s t : text) :
  countWordsInText word_char (Some s) + countWordsInText word_char (Some t) - 1
  <= countWordsInText word_char (Some (s ++ t))
  <= countWordsInText word_char (Some s) + countWordsInText word_char (Some t)
  /\ (forall c, word_char c = false ->
      countWordsInText word_char (Some (s ++ c :: t))
      = countWordsInText word_char (Some s) + countWordsInText word_char (Some t)).
Proof.
  split.
  - rewrite !countWordsInText_length.
    pose proof (scan_app_bounds [] s t). lia.
  - intros c Hc. now apply countWordsInText_app_sep.
Qed.

(** X7: the count of a list of blocks is 0 for no block, never negative, and
    adds up over concatenation; so the count of a walked document is the
    count of the first block, of its descendants and of the blocks after it,
    added. *)
Theorem countWordsInBlocks_adds_up :
  countWordsInBlocks word_char [] = 0
  /\ (forall blocks, 0 <= countWordsInBlocks word_char blocks)
  /\ (forall a b,
        countWordsInBlocks word_char (a ++ b)
        = countWordsInBlocks word_char a + countWordsInBlocks word_char b)
  /\ (forall b kids rest ds ss,
        has_children b = true ->
        retrieveBlockChildren kids = inr ds ->
        retrieveBlockChildren rest = inr ss ->
        exists blocks,
          retrieveBlockChildren (LYield (Node b kids) rest) = inr blocks
          /\ countWordsInBlocks word_char blocks
             = countWordsInText word_char (Some (getTextFromBlock b))
               + countWordsInBlocks word_char ds
               + countWordsInBlocks word_char ss).
Proof.
  assert (Happ : forall a b,
             countWordsInBlocks word_char (a ++ b)
             = countWordsInBlocks word_char a + countWordsInBlocks word_char b).
  { intros a b. unfold countWordsInBlocks at 1.
    rewrite fold_left_app. fold (countWordsInBlocks word_char a).
    now rewrite countWordsInBlocks_from. }
  split; [reflexivity|]. split; [|split; [exact Happ|]].
  - induction blocks as [|b blocks IH]; [reflexivity|].
    rewrite countWordsInBlocks_cons, countWordsInText_length. lia.
  - intros b kids rest ds ss Hb Hk Hr. eexists. split.
    + rewrite retrieveBlockChildren_yield, Hb, Hk, Hr. reflexivity.
    + rewrite countWordsInBlocks_cons, Happ. lia.
Qed.

End TokenizerMore.

(** ** More on the text of a block and on the walk *)

Section MarkerCounts.
Variable word_char : N -> bool.

(** Below U+0080 the character class is the ASCII letters and digits. *)
Hypothesis word_char_ascii : forall c, (c < 128)%N -> word_char c = ascii_alnum c.

Lemma count_with_annotation (b : Block) :
  countWordsInText word_char (Some (getTextFromBlock b))
  = countWordsInText word_char
      (Some (match rich_text (payload b) with
             | Some rt => getPlainTextFromRichText rt
             | None => switch_on_type b
             end))
    + (if has_children b then 2 else 0).
Proof.
  unfold getTextFromBlock.
  destruct (has_children b); [|lia].
  now apply suffix_two_words.
Qed.

Lemma count_literal (s : string) (n : Z) :
  (forall c, In c (lit s) -> (c < 128)%N) ->
  Z.of_nat (length (scan ascii_alnum [] (lit s))) = n ->
  countWordsInText word_char (Some (lit s)) = n.
Proof.
  intros Hs Hn. rewrite countWordsInText_length, (scan_literal word_char); assumption.
Qed.

(** X4: without [rich_text], a media block ([embed], [video], [file],
    [image], [pdf]) counts 2 words, a block of a type without a case counts
    5, and a [child_page] counts 2 plus the words of its title; each of them
    2 more when the block has children. *)
Theorem marker_word_counts :
  (forall b,
      rich_text (payload b) = None ->
      In (block_type b) ["embed"; "video"; "file"; "image"; "pdf"]%string ->
      countWordsInText word_char (Some (getTextFromBlock b))
      = 2 + (if has_children b then 2 else 0))
  /\ (forall b,
        rich_text (payload b) = None ->
        ~ In (block_type b) recognized_types ->
        countWordsInText word_char (Some (getTextFromBlock b))
        = 5 + (if has_children b then 2 else 0))
  /\ (forall b,
        rich_text (payload b) = None ->
        block_type b = "child_page"%string ->
        countWordsInText word_char (Some (getTextFromBlock b))
        = 2 + countWordsInText word_char (Some (title (payload b)))
          + (if has_children b then 2 else 0)).
Proof.
  split; [|split].
  - intros b Hrt Hty. rewrite count_with_annotation, Hrt. f_equal.
    assert (Hsw : switch_on_type b = media_marker).
    { unfold switch_on_type. simpl in Hty.
      repeat (destruct Hty as [<- | Hty]; [reflexivity|]). destruct Hty. }
    rewrite Hsw. apply count_literal; [|reflexivity].
    intros c Hc. ascii_literal Hc.
  - intros b Hrt Hty. rewrite count_with_annotation, Hrt. f_equal.
    assert (Hsw : switch_on_type b = unsupported_marker).
    { unfold switch_on_type.
      rewrite !(eqb_not_in _ _ _ Hty) by (simpl; tauto). reflexivity. }
    rewrite Hsw. apply count_literal; [|reflexivity].
    intros c Hc. ascii_literal Hc.
  - intros b Hrt Hty. rewrite count_with_annotation, Hrt. f_equal.
    unfold switch_on_type. rewrite Hty. cbn [String.eqb Ascii.eqb Bool.eqb].
    change (lit "[Sub-page: " ++ title (payload b) ++ lit "]")
      with (lit "[Sub-page:" ++ 32%N :: (title (payload b) ++ 93%N :: [])).
    rewrite countWordsInText_app_sep
      by (rewrite word_char_ascii; reflexivity).
    rewrite countWordsInText_app_sep
      by (rewrite word_char_ascii; reflexivity).
    rewrite (count_literal "[Sub-page:" 2); [cbn; lia | | reflexivity].
    intros c Hc. ascii_literal Hc.
Qed.

End MarkerCounts.

(** X4 at an image with children. *)
Lemma marker_word_counts_witness :
  countWordsInText Sample.word_char
    (Some (getTextFromBlock (Sample.unsupported "i1" "image" true))) = 4.
Proof.
  apply (proj1 (marker_word_counts Sample.word_char lt_128_alnum)
           (Sample.unsupported "i1" "image" true)).
  - reflexivity.
  - simpl. tauto.
Defined.

(** X6: the walk returns blocks exactly when no request it makes fails, and
    throws otherwise, keeping nothing of what it had collected; the children
    of a block not flagged [has_children] are never requested. *)
Theorem walk_all_or_nothing :
  (forall l, listing_ok l = true <-> exists blocks, retrieveBlockChildren l = inr blocks)
  /\ (forall l, listing_ok l = false <-> exists e, retrieveBlockChildren l = inl e)
  /\ (forall b kids kids' rest,
        has_children b = false ->
        retrieveBlockChildren (LYield (Node b kids) rest)
        = retrieveBlockChildren (LYield (Node b kids') rest))
  /\ (forall b kids rest e,
        has_children b = true ->
        retrieveBlockChildren kids = inl e ->
        retrieveBlockChildren (LYield (Node b kids) rest) = inl e).
Proof.
  split; [|split; [|split]].
  - intros l. split.
    + intros Hok. eexists. now apply retrieveBlockChildren_ok.
    + intros [blocks Hb]. destruct (listing_ok l) eqn:Hok; [reflexivity|].
      destruct (retrieveBlockChildren_fails l Hok) as [e He]. congruence.
  - intros l. split.
    + apply retrieveBlockChildren_fails.
    + intros [e He]. destruct (listing_ok l) eqn:Hok; [|reflexivity].
      rewrite (retrieveBlockChildren_ok l Hok) in He. discriminate He.
  - intros b kids kids' rest Hb.
    now rewrite !retrieveBlockChildren_yield, Hb.
  - intros b kids rest e Hb He.
    now rewrite retrieveBlockChildren_yield, Hb, He.
Qed.


(** ** More on the tables *)

Lemma sum_counts_perm (l l' : list (string * Row)) :
  l ≡ₚ l' ->
  foldr Z.add 0 (List.map (fun kv => row_word_count (snd kv)) l)
  = foldr Z.add 0 (List.map (fun kv => row_word_count (snd kv)) l').
Proof.
  induction 1; simpl; lia.
Qed.

Lemma sum_word_counts_insert_new (rows : gmap string Row) (pageId : string) (row : Row) :
  rows !! pageId = None ->
  sum_word_counts (<[pageId := row]> rows) = row_word_count row + sum_word_counts rows.
Proof.
  intros Hnone. unfold sum_word_counts.
  now rewrite (sum_counts_perm _ _ (map_to_list_insert rows pageId row Hnone)).
Qed.

Lemma sum_word_counts_insert (rows : gmap string Row) (pageId : string) (row : Row) :
  sum_word_counts (<[pageId := row]> rows)
  = sum_word_counts rows
    - match rows !! pageId with
      | Some old => row_word_count old
      | None => 0
      end
    + row_word_count row.
Proof.
  destruct (rows !! pageId) as [old|] eqn:Hold.
  - rewrite <- (insert_delete_eq rows pageId row).
    rewrite <- (insert_delete_id rows pageId old Hold) at 2.
    rewrite !sum_word_counts_insert_new by apply lookup_delete_eq. lia.
  - rewrite sum_word_counts_insert_new by exact Hold. lia.
Qed.

Section StoreMore.
Context {W : Type} (env : Env W).

(** [updateSQLiteDatabase] only hands the statement to the driver. *)
Lemma updateSQLiteDatabase_eq (pageId t : string) (wc : Z) (st : State W) :
  updateSQLiteDatabase pageId t wc st
  = (inr tt,
     {| world := world st;
        pages := pages st;
        queue := queue st ++ [ {| upsert_id := pageId; upsert_time := t;
                                  upsert_count := wc |} ];
        word_count_history := word_count_history st;
        trace := trace st ++ [Sql (UpsertPage pageId)] |}).
Proof. reflexivity. Qed.

(** The driver, with one upsert in the queue, answering a statement. *)
Lemma awaited_one (stmt : SqlStmt) (st : State W) (u : Upsert) :
  queue st = [u] ->
  (sqlite_schedule env (trace st ++ [Sql stmt]) (world st) = [] ->
   pages (awaited env stmt st) = pages st)
  /\ ((exists rest, sqlite_schedule env (trace st ++ [Sql stmt]) (world st)
                    = 0%nat :: rest) ->
      sqlite_error env (UpsertPage (upsert_id u)) (world st) = None ->
      pages (awaited env stmt st)
      = <[upsert_id u := {| row_last_edited_time := upsert_time u;
                            row_word_count := upsert_count u |}]> (pages st)).
Proof.
  intros Hq. unfold awaited. split.
  - intros ->. reflexivity.
  - intros [rest ->] Hok. cbn. rewrite Hq. cbn.
    rewrite land_empty.
    + unfold run_upsert. cbn. now rewrite Hok.
    + unfold run_upsert. cbn. now rewrite Hok.
Qed.

(** X8: [updateSQLiteDatabase] returns at once without writing: the upsert
    waits for the driver.  A lookup of the page issued next resolves to the
    timestamp written if the driver executes the upsert first (and accepts
    it), and to what it resolved to before if the driver answers the lookup
    first. *)
Theorem upsert_then_lookup (pageId t : string) (wc : Z) (st : State W) :
  queue st = [] ->
  sqlite_error env (SelectLastEdited pageId) (world st) = None ->
  let st1 := snd (updateSQLiteDatabase pageId t wc st) in
  let picked :=
    sqlite_schedule env (trace st1 ++ [Sql (SelectLastEdited pageId)]) (world st) in
  fst (updateSQLiteDatabase pageId t wc st) = inr tt
  /\ pages st1 = pages st
  /\ (picked = [] ->
      fst (getStoredLastEditedTime env pageId st1)
      = fst (getStoredLastEditedTime env pageId st))
  /\ ((exists rest, picked = 0%nat :: rest) ->
      sqlite_error env (UpsertPage pageId) (world st) = None ->
      numeric_looking t = false ->
      fst (getStoredLastEditedTime env pageId st1) = inr (Some t)).
Proof.
  intros Hq Hsel st1 picked. subst st1 picked.
  rewrite updateSQLiteDatabase_eq. cbn [fst snd].
  split; [reflexivity|]. split; [reflexivity|].
  set (st1 := {| world := world st; pages := pages st;
                 queue := queue st ++ [ {| upsert_id := pageId; upsert_time := t;
                                           upsert_count := wc |} ];
                 word_count_history := word_count_history st;
                 trace := trace st ++ [Sql (UpsertPage pageId)] |}).
  assert (Hq1 : queue st1 = [ {| upsert_id := pageId; upsert_time := t;
                                 upsert_count := wc |} ])
    by (cbn; now rewrite Hq).
  destruct (awaited_one (SelectLastEdited pageId) st1 _ Hq1) as [Hlate Hfirst].
  rewrite !getStoredLastEditedTime_eq. cbn [fst world st1]. rewrite Hsel.
  split.
  - intros Hpicked. rewrite (Hlate Hpicked).
    now rewrite (awaited_empty env _ st Hq).
  - intros Hpicked Hok _. rewrite (Hfirst Hpicked Hok).
    unfold stored_last_edited. cbn. now rewrite lookup_insert_eq.
Qed.

(** X9: [getTotalWordCount] issued after [updateSQLiteDatabase] resolves to
    the total it resolved to before if the driver answers it before it
    executes the upsert, and to that total minus the count the page had (0
    if it had no row) plus the count written if the driver executes the
    upsert first. *)
Theorem sum_after_upsert (pageId t : string) (wc : Z) (st : State W) :
  queue st = [] ->
  sqlite_error env SelectSum (world st) = None ->
  sqlite_error env (UpsertPage pageId) (world st) = None ->
  let st1 := snd (updateSQLiteDatabase pageId t wc st) in
  let picked := sqlite_schedule env (trace st1 ++ [Sql SelectSum]) (world st) in
  exists total,
    fst (getTotalWordCount env st) = inr total
    /\ (picked = [] -> fst (getTotalWordCount env st1) = inr total)
    /\ ((exists rest, picked = 0%nat :: rest) ->
        fst (getTotalWordCount env st1)
        = inr (total
               - match pages st !! pageId with
                 | Some old => row_word_count old
                 | None => 0
                 end
               + wc)).
Proof.
  intros Hq Hsum Hok st1 picked. subst st1 picked.
  rewrite updateSQLiteDatabase_eq. cbn [snd].
  set (st1 := {| world := world st; pages := pages st;
                 queue := queue st ++ [ {| upsert_id := pageId; upsert_time := t;
                                           upsert_count := wc |} ];
                 word_count_history := word_count_history st;
                 trace := trace st ++ [Sql (UpsertPage pageId)] |}).
  assert (Hq1 : queue st1 = [ {| upsert_id := pageId; upsert_time := t;
                                 upsert_count := wc |} ])
    by (cbn; now rewrite Hq).
  destruct (awaited_one SelectSum st1 _ Hq1) as [Hlate Hfirst].
  exists (sum_word_counts (pages st)).
  rewrite !getTotalWordCount_eq. cbn [fst world st1]. rewrite Hsum.
  rewrite (awaited_empty env _ st Hq). split; [reflexivity|]. split.
  - intros Hpicked. now rewrite (Hlate Hpicked).
  - intros Hpicked. rewrite (Hfirst Hpicked Hok). cbn.
    now rewrite sum_word_counts_insert.
Qed.

(** X10: [updatePageWordCount] never throws: the world is the one the call
    to Notion left, the table and the queue are untouched, and an error of
    the call is logged. *)
Theorem updatePageWordCount_outcome (pageId : string) (wordCount : Z) (st : State W) :
  updatePageWordCount env pageId wordCount st
  = (inr tt,
     {| world := snd (pages_update env pageId wordCount (world st));
        pages := pages st;
        queue := queue st;
        word_count_history := word_count_history st;
        trace := trace st
                 ++ CallPagesUpdate pageId wordCount
                 :: match fst (pages_update env pageId wordCount (world st)) with
                    | Some e => [ConsoleError (FailedUpdateWordCount pageId e)]
                    | None => []
                    end |}).
Proof.
  unfold_engine. cbn.
  destruct (pages_update env pageId wordCount (world st)) as [[e|] w'];
    tidy_trace; reflexivity.
Qed.

End StoreMore.

(** ** More on the engine *)

Lemma In_delete {A} (x : A) (i : nat) (l : list A) : In x (delete i l) -> In x l.
Proof.
  revert i. induction l as [|a l IH]; intros i H; [destruct i; exact H|].
  destruct i as [|i]; cbn in H.
  - now right.
  - destruct H as [-> | H]; [now left | right; exact (IH i H)].
Qed.

Section EngineMore.
Context {W : Type} (env : Env W).
Variable Date_parse : string -> option Z.
Variable word_char : N -> bool.

Local Abbreviation processPage := (processPage env Date_parse word_char).
Local Abbreviation forPages := (forPages env Date_parse word_char).
Local Abbreviation queryLoop := (queryLoop env Date_parse word_char).
Local Abbreviation processDatabasePages := (processDatabasePages env Date_parse word_char).
Local Abbreviation processDatabasePages_try := (processDatabasePages_try env Date_parse word_char).
Local Abbreviation update_word_count_route := (update_word_count_route env Date_parse word_char).
Local Abbreviation skipped := (skipped env Date_parse word_char).
Local Abbreviation rest_of_request := (rest_of_request env Date_parse word_char).
Local Abbreviation reaches := (reaches env Date_parse word_char).
Local Abbreviation awaited := (awaited env).
Local Abbreviation lookup_state := (lookup_state env).
Local Abbreviation skip_outcome := (skip_outcome env).
Local Abbreviation land := (land env).
Local Abbreviation run_upsert := (run_upsert env).

(** *** One page, when something fails *)

(** X12: when the lookup of the page's row fails, the page throws at once,
    in the state in which the driver answered the lookup: no call to Notion
    is made and no upsert is issued. *)
Theorem lookup_failure_throws (page : Page) (st : State W) (e : Error) :
  sqlite_error env (SelectLastEdited (page_id page)) (world st) = Some e ->
  processPage page st = (inl e, lookup_state page st).
Proof.
  apply processPage_lookup_fails.
Qed.

(** X13: when the page cannot be read back after the update, the page
    throws; no upsert is issued, so its row is left as it was, although the
    world is the one the update left (the count may already be written in
    Notion). *)
Theorem reread_failure_keeps_row (page : Page) (st : State W)
        (blocks : list Block) (uerr : option Error) (w' : W) (e : Error) :
  let pageId := page_id page in
  let wordCount := countWordsInBlocks word_char blocks in
  sqlite_error env (SelectLastEdited pageId) (world st) = None ->
  already_crawled Date_parse
    (stored_last_edited (pages (lookup_state page st)) pageId)
    (last_edited_time page) = false ->
  retrieveBlockChildren (blocks_children_list env pageId (world st)) = inr blocks ->
  pages_update env pageId wordCount (world st) = (uerr, w') ->
  pages_retrieve env pageId w' = inl e ->
  processPage page st
  = (inl e,
     {| world := w';
        pages := pages (lookup_state page st);
        queue := queue (lookup_state page st);
        word_count_history := word_count_history (lookup_state page st);
        trace := trace (lookup_state page st)
                 ++ reprocess_trace page wordCount uerr |}).
Proof.
  apply processPage_reread_fails.
Qed.

(** X14: a page completes without throwing whatever the driver will do with
    its upsert; when the driver refuses the upsert, the callback logs the
    error and the table and the world are left as they were. *)
Theorem upsert_failure_is_logged (page : Page) (st : State W)
        (blocks : list Block) (uerr : option Error) (w' : W) (updated : Page) :
  let pageId := page_id page in
  let wordCount := countWordsInBlocks word_char blocks in
  let u := {| upsert_id := pageId; upsert_time := last_edited_time updated;
              upsert_count := wordCount |} in
  sqlite_error env (SelectLastEdited pageId) (world st) = None ->
  already_crawled Date_parse
    (stored_last_edited (pages (lookup_state page st)) pageId)
    (last_edited_time page) = false ->
  retrieveBlockChildren (blocks_children_list env pageId (world st)) = inr blocks ->
  pages_update env pageId wordCount (world st) = (uerr, w') ->
  pages_retrieve env pageId w' = inr updated ->
  exists st',
    processPage page st = (inr tt, st')
    /\ world st' = w'
    /\ pages st' = pages (lookup_state page st)
    /\ queue st' = queue (lookup_state page st) ++ [u]
    /\ (forall (s : State W) (e : Error),
          sqlite_error env (UpsertPage pageId) (world s) = Some e ->
          run_upsert u s = add_trace s [ConsoleError (FailedUpdateSQLite pageId e)])
    /\ (forall e : Error,
          sqlite_error env (UpsertPage pageId) w' = Some e ->
          queue (lookup_state page st) = [] ->
          world (settle env st') = w'
          /\ pages (settle env st') = pages (lookup_state page st)
          /\ queue (settle env st') = []
          /\ trace (settle env st')
             = trace st' ++ [ConsoleError (FailedUpdateSQLite pageId e)]).
Proof.
  intros pageId wordCount u Hsql Hskip Hwalk Hupd Hget.
  eexists. split.
  { exact (processPage_recorded env Date_parse word_char page st blocks uerr w'
             updated Hsql Hskip Hwalk Hupd Hget). }
  split; [reflexivity|]. split; [reflexivity|]. split; [reflexivity|]. split.
  - intros s e He. unfold run_upsert. cbn. now rewrite He.
  - intros e He Hq0.
    match goal with
    | |- context [settle env ?s] =>
        assert (Hs : settle env s
                     = add_trace (set_queue [] s)
                         [ConsoleError (FailedUpdateSQLite pageId e)])
    end.
    { rewrite (settle_cons env _ u []) by (cbn; now rewrite Hq0).
      rewrite settle_empty.
      - unfold run_upsert. cbn. now rewrite He.
      - unfold run_upsert. cbn. now rewrite He. }
    rewrite Hs. cbn. repeat split; reflexivity.
Qed.

(** X11: a page is walked, not skipped, whenever the table, as the driver
    holds it when it answers the lookup, has no row for it, or its listed
    timestamp is not a valid date, or its row holds an empty timestamp, one
    that is not a valid date, or a date before the listed one. *)
Theorem not_skipped_cases (page : Page) (st : State W) :
  sqlite_error env (SelectLastEdited (page_id page)) (world st) = None ->
  pages (lookup_state page st) !! page_id page = None
  \/ Date_parse (last_edited_time page) = None
  \/ (exists row,
        pages (lookup_state page st) !! page_id page = Some row
        /\ (row_last_edited_time row = ""%string
            \/ Date_parse (row_last_edited_time row) = None
            \/ exists x y,
                 Date_parse (last_edited_time page) = Some x
                 /\ Date_parse (row_last_edited_time row) = Some y
                 /\ y < x)) ->
  ~ skipped page st
  /\ exists evs,
       trace (snd (processPage page st))
       = trace (lookup_state page st) ++ CallBlocksChildren (page_id page) :: evs.
Proof.
  intros Hsql Hcase.
  assert (Hc : already_crawled Date_parse
                 (stored_last_edited (pages (lookup_state page st)) (page_id page))
                 (last_edited_time page) = false).
  { unfold already_crawled, stored_last_edited, Date_le.
    destruct Hcase as [-> | [Hbad | [row [-> Hrow]]]]; [reflexivity | |].
    - destruct (pages (lookup_state page st) !! page_id page); [|reflexivity].
      destruct (String.eqb _ _); [reflexivity|]. now rewrite Hbad.
    - destruct Hrow as [-> | [Hbad | [x [y [Hx [Hy Hlt]]]]]]; [reflexivity| |].
      + destruct (String.eqb _ _); [reflexivity|]. rewrite Hbad.
        now destruct (Date_parse (last_edited_time page)).
      + destruct (String.eqb _ _); [reflexivity|]. rewrite Hx, Hy.
        apply Z.leb_gt. exact Hlt. }
  destruct (processPage_walk_cases env Date_parse word_char page st Hsql Hc)
    as [evs [issued [_ [_ [_ [_ [Hevs _]]]]]]].
  split; [|now exists evs].
  intros Hs. red in Hs. rewrite Hs in Hevs. cbn in Hevs.
  apply app_inv_head in Hevs. discriminate Hevs.
Qed.

(** *** Whole runs *)

Section Lift.
(** A relation between the state before and after that every step of a run
    keeps is kept by the run. *)
Variable R : State W -> State W -> Prop.
Hypothesis R_refl : forall st, R st st.
Hypothesis R_trans : forall st1 st2 st3, R st1 st2 -> R st2 st3 -> R st1 st3.
Hypothesis R_quiet :
  forall st evs, forallb quiet evs = true -> R st (add_trace st evs).
Hypothesis R_land :
  forall st i u,
    queue st !! i = Some u ->
    R st (run_upsert u (set_queue (delete i (queue st)) st)).
Hypothesis R_walk :
  forall (s1 s2 : State W) evs issued,
    pages s2 = pages s1 ->
    queue s2 = queue s1 ++ issued ->
    word_count_history s2 = word_count_history s1 ->
    trace s2 = trace s1 ++ evs ->
    (issued = []
     \/ exists u, issued = [u] /\ 0 <= upsert_count u
                  /\ In (Sql (UpsertPage (upsert_id u))) evs) ->
    R s1 s2.
Hypothesis R_entry :
  forall (s : State W) x,
    R s {| world := world s; pages := pages s; queue := queue s;
           word_count_history := word_count_history s ++ [x];
           trace := trace s |}.

Lemma lift_land (ps : list nat) (st : State W) : R st (land ps st).
Proof.
  revert st. induction ps as [|i ps IH]; intros st; [apply R_refl|].
  cbn. destruct (queue st !! i) as [u|] eqn:Hi; [|apply IH].
  exact (R_trans _ _ _ (R_land st i u Hi) (IH _)).
Qed.

Lemma lift_awaited (stmt : SqlStmt) (st : State W) :
  quiet (Sql stmt) = true -> R st (awaited stmt st).
Proof.
  intros Hq. unfold awaited.
  refine (R_trans _ _ _ (R_quiet st [Sql stmt] _) (lift_land _ _)).
  unfold forallb. now rewrite Hq.
Qed.

Lemma lift_page (page : Page) (st : State W) : R st (snd (processPage page st)).
Proof.
  pose proof (lift_awaited (SelectLastEdited (page_id page)) st eq_refl) as Hl.
  fold (lookup_state page st) in Hl.
  destruct (sqlite_error env (SelectLastEdited (page_id page)) (world st)) as [e|] eqn:Hsql.
  - now rewrite (processPage_lookup_fails env Date_parse word_char page st e Hsql).
  - destruct (already_crawled Date_parse
                (stored_last_edited (pages (lookup_state page st)) (page_id page))
                (last_edited_time page)) eqn:Hc.
    + rewrite (processPage_skip env Date_parse word_char page st Hsql Hc).
      cbn [snd]. unfold skip_outcome.
      exact (R_trans _ _ _ Hl
               (R_quiet _ [ConsoleLog (AlreadyCrawled (page_url page))] eq_refl)).
    + destruct (processPage_walk_cases env Date_parse word_char page st Hsql Hc)
        as [evs [issued [_ [Hp [Hq [Hh [Ht Hi]]]]]]].
      refine (R_trans _ _ _ Hl (R_walk _ _ _ issued Hp Hq Hh Ht _)).
      destruct Hi as [-> | [u [-> [Hid [Hnn Hin]]]]]; [now left|].
      right. exists u. split; [reflexivity|]. split; [exact Hnn|].
      rewrite Hid. now right.
Qed.

Lemma lift_forPages (ps : list Page) (st : State W) : R st (snd (forPages ps st)).
Proof.
  revert st. induction ps as [|p ps IH]; intros st; [apply R_refl|].
  rewrite forPages_cons. pose proof (lift_page p st) as Hp.
  destruct (processPage p st) as [[e | u] st']; cbn in Hp |- *; [exact Hp|].
  exact (R_trans _ _ _ Hp (IH st')).
Qed.

Lemma lift_queryLoop (fuel : nat) (c : option string) (st : State W) r st' :
  queryLoop fuel c st = Some (r, st') -> R st st'.
Proof.
  revert c st. induction fuel as [|fuel IH]; intros c st H; [discriminate H|].
  rewrite queryLoop_S in H.
  destruct (databases_query env c (world st)) as [e | response].
  { injection H as _ <-. now apply R_quiet. }
  pose proof (lift_forPages (results response) (add_trace st [CallDatabasesQuery c])) as Hf.
  pose proof (R_trans _ _ _ (R_quiet st [CallDatabasesQuery c] eq_refl) Hf) as Hq.
  unfold rest_of_request in H.
  destruct (forPages (results response) _) as [[e | u] st2]; cbn in Hq.
  { injection H as _ <-. exact Hq. }
  destruct (has_more response).
  - exact (R_trans _ _ _ Hq (IH _ _ H)).
  - injection H as _ <-. exact Hq.
Qed.

Lemma lift_storeTotal (st : State W) : R st (snd (storeTotal env st)).
Proof.
  unfold storeTotal, bind.
  rewrite getTotalWordCount_eq.
  pose proof (lift_awaited SelectSum st eq_refl) as H1.
  destruct (sqlite_error env SelectSum (world st)); [exact H1|].
  rewrite storeTotalWordCount_eq.
  pose proof (lift_awaited InsertHistory (awaited SelectSum st) eq_refl) as H2.
  destruct (sqlite_error env InsertHistory _); [exact (R_trans _ _ _ H1 H2)|].
  cbn. refine (R_trans _ _ _ (R_trans _ _ _ H1 H2) _).
  refine (R_trans _ _ _ _ (R_quiet _ [ConsoleLog (TotalStored _)] eq_refl)).
  rewrite <- (awaited_history env InsertHistory (awaited SelectSum st)).
  apply R_entry.
Qed.

Lemma lift_run (fuel : nat) (st : State W) r st' :
  processDatabasePages fuel st = Some (r, st') -> R st st'.
Proof.
  unfold processDatabasePages, processDatabasePages_try.
  destruct (queryLoop fuel None st) as [[[e | u] st1]|] eqn:Hloop; [| |discriminate].
  - intros H. injection H as _ <-.
    exact (R_trans _ _ _ (lift_queryLoop _ _ _ _ _ Hloop)
             (R_quiet st1 [ConsoleError (FailedProcess e)] eq_refl)).
  - pose proof (lift_storeTotal st1) as Ht.
    pose proof (lift_queryLoop _ _ _ _ _ Hloop) as Hq.
    destruct (storeTotal env st1) as [[e | u'] st2]; cbn in Ht; intros H.
    + injection H as _ <-.
      exact (R_trans _ _ _ Hq
               (R_trans _ _ _ Ht (R_quiet st2 [ConsoleError (FailedProcess e)] eq_refl))).
    + injection H as _ <-. exact (R_trans _ _ _ Hq Ht).
Qed.

End Lift.

(** X15: in a run the trace only grows, no row of [pages] is ever removed,
    and the row of an id changes only if an upsert for that id was in the
    queue at the start or was issued by the run. *)
Theorem rows_change_only_by_upsert (fuel : nat) (st : State W) r st' :
  processDatabasePages fuel st = Some (r, st') ->
  exists evs,
    trace st' = trace st ++ evs
    /\ forall pageId,
         (is_Some (pages st !! pageId) -> is_Some (pages st' !! pageId))
         /\ (~ In (Sql (UpsertPage pageId)) evs ->
             ~ In pageId (queued_ids (queue st)) ->
             pages st' !! pageId = pages st !! pageId
             /\ ~ In pageId (queued_ids (queue st'))).
Proof.
  apply (lift_run (fun st st' =>
    exists evs,
      trace st' = trace st ++ evs
      /\ forall pageId,
           (is_Some (pages st !! pageId) -> is_Some (pages st' !! pageId))
           /\ (~ In (Sql (UpsertPage pageId)) evs ->
               ~ In pageId (queued_ids (queue st)) ->
               pages st' !! pageId = pages st !! pageId
               /\ ~ In pageId (queued_ids (queue st'))))).
  - intros s. exists []. split; [now rewrite app_nil_r|]. intros k. split; auto.
  - intros s1 s2 s3 [evs1 [Ht1 H1]] [evs2 [Ht2 H2]].
    exists (evs1 ++ evs2). split; [now rewrite Ht2, Ht1, app_assoc|].
    intros k. destruct (H1 k) as [Hk1 Hc1]. destruct (H2 k) as [Hk2 Hc2].
    split; [auto|]. intros Hnot Hnq.
    destruct Hc1 as [Hp1 Hq1];
      [intros Hin; apply Hnot, in_or_app; now left | exact Hnq |].
    destruct Hc2 as [Hp2 Hq2];
      [intros Hin; apply Hnot, in_or_app; now right | exact Hq1 |].
    split; [now rewrite Hp2, Hp1 | exact Hq2].
  - intros s evs _. exists evs. split; [reflexivity|]. intros k. split; auto.
  - intros s i u Hi.
    assert (Hin : In (upsert_id u) (queued_ids (queue s))).
    { unfold queued_ids. apply in_map. apply list_elem_of_In.
      now apply list_elem_of_lookup_2 in Hi. }
    unfold run_upsert, set_queue. cbn.
    destruct (sqlite_error env (UpsertPage (upsert_id u)) (world s)) as [e|]; cbn.
    + eexists. split; [reflexivity|]. intros k. split; [auto|].
      intros _ Hnq. split; [reflexivity|].
      intros Hk. apply Hnq. unfold queued_ids in *.
      apply in_map_iff in Hk as [x [Hx Hk]]. apply in_map_iff.
      exists x. split; [exact Hx | exact (In_delete _ _ _ Hk)].
    + exists []. split; [now rewrite app_nil_r|]. intros k. split.
      * destruct (decide (upsert_id u = k)) as [<- | Hne].
        -- rewrite lookup_insert_eq. eauto.
        -- now rewrite lookup_insert_ne.
      * intros _ Hnq. split.
        -- rewrite lookup_insert_ne; [reflexivity|]. intros <-. now apply Hnq.
        -- intros Hk. apply Hnq. unfold queued_ids in *.
           apply in_map_iff in Hk as [x [Hx Hk]]. apply in_map_iff.
           exists x. split; [exact Hx | exact (In_delete _ _ _ Hk)].
  - intros s1 s2 evs issued Hp Hq _ Ht Hi.
    exists evs. split; [exact Ht|]. rewrite Hp. intros k. split; [auto|].
    intros Hnot Hnq. split; [reflexivity|].
    rewrite Hq. unfold queued_ids. rewrite map_app. intros Hk.
    apply in_app_or in Hk as [Hk | Hk]; [now apply Hnq|].
    destruct Hi as [-> | [u [-> [_ Hin]]]]; [destruct Hk|].
    cbn in Hk. destruct Hk as [<- | []]. now apply Hnot.
  - intros s x. exists []. split; [cbn; now rewrite app_nil_r|].
    intros k. split; auto.
Qed.

Lemma sum_word_counts_nonneg (rows : gmap string Row) :
  rows_nonneg rows -> 0 <= sum_word_counts rows.
Proof.
  intros Hrows. unfold sum_word_counts.
  assert (Hall : Forall (fun kv => 0 <= row_word_count (snd kv)) (map_to_list rows)).
  { apply Forall_forall. intros [k row] Hin.
    apply elem_of_map_to_list in Hin. exact (Hrows k row Hin). }
  induction Hall as [|kv l Hkv _ IH]; simpl; lia.
Qed.

(** X16: word counts never go negative: a run over a table and a queue
    whose counts are all at least 0 leaves such a table and such a queue,
    and the sum of the table is at least 0. *)
Theorem counts_stay_nonnegative (fuel : nat) (st : State W) r st' :
  processDatabasePages fuel st = Some (r, st') ->
  rows_nonneg (pages st) ->
  Forall (fun u => 0 <= upsert_count u) (queue st) ->
  rows_nonneg (pages st')
  /\ Forall (fun u => 0 <= upsert_count u) (queue st')
  /\ 0 <= sum_word_counts (pages st').
Proof.
  intros Hrun Hrows Hqueue.
  assert (Hkeep : rows_nonneg (pages st')
                  /\ Forall (fun u => 0 <= upsert_count u) (queue st')).
  { refine (lift_run
              (fun st st' =>
                 rows_nonneg (pages st)
                 /\ Forall (fun u => 0 <= upsert_count u) (queue st) ->
                 rows_nonneg (pages st')
                 /\ Forall (fun u => 0 <= upsert_count u) (queue st'))
              _ _ _ _ _ _ fuel st r st' Hrun (conj Hrows Hqueue)).
    - intros s Hs. exact Hs.
    - intros s1 s2 s3 H12 H23 Hs. exact (H23 (H12 Hs)).
    - intros s evs _ Hs. exact Hs.
    - intros s i u Hi [Hs Hq].
      assert (Hu : 0 <= upsert_count u).
      { exact (Forall_lookup_1 _ _ _ _ Hq Hi). }
      assert (Hq' : Forall (fun u => 0 <= upsert_count u) (delete i (queue s))).
      { now apply Forall_delete. }
      unfold run_upsert, set_queue. cbn.
      destruct (sqlite_error env (UpsertPage (upsert_id u)) (world s)); cbn;
        [split; assumption|].
      split; [|exact Hq'].
      intros k row Hk.
      destruct (decide (upsert_id u = k)) as [<- | Hne].
      + rewrite lookup_insert_eq in Hk. now injection Hk as <-.
      + rewrite lookup_insert_ne in Hk by exact Hne. exact (Hs k row Hk).
    - intros s1 s2 evs issued Hp Hq _ _ Hi [Hs Hq1]. rewrite Hp, Hq.
      split; [exact Hs|]. apply Forall_app. split; [exact Hq1|].
      destruct Hi as [-> | [u [-> [Hnn _]]]]; [constructor|].
      constructor; [exact Hnn | constructor].
    - intros s x Hs. exact Hs. }
  destruct Hkeep as [Hr Hq].
  split; [exact Hr|]. split; [exact Hq | now apply sum_word_counts_nonneg].
Qed.

(** X17: a run adds at most one entry to the history, and nothing else
    changes it; an added entry is the sum of the word counts of the table as
    the driver holds it when it answers the [SELECT SUM] after the loop. *)
Theorem history_is_append_only (fuel : nat) (st : State W) r st' :
  processDatabasePages fuel st = Some (r, st') ->
  word_count_history st' = word_count_history st
  \/ exists st1,
       queryLoop fuel None st = Some (inr tt, st1)
       /\ word_count_history st'
          = word_count_history st
            ++ [sum_word_counts (pages (awaited SelectSum st1))].
Proof.
  unfold processDatabasePages, processDatabasePages_try.
  destruct (queryLoop fuel None st) as [[[e | u] st1]|] eqn:Hloop; [| |discriminate].
  - intros H. injection H as _ <-. left. cbn.
    exact (queryLoop_history _ _ _ _ _ _ _ _ Hloop).
  - pose proof (queryLoop_history _ _ _ _ _ _ _ _ Hloop) as Hh.
    unfold storeTotal, bind. rewrite getTotalWordCount_eq.
    destruct (sqlite_error env SelectSum (world st1)).
    { intros H. injection H as _ <-. left. cbn.
      now rewrite awaited_history. }
    rewrite storeTotalWordCount_eq.
    destruct (sqlite_error env InsertHistory _).
    { intros H. injection H as _ <-. left. cbn.
      now rewrite !awaited_history. }
    cbn. intros H. injection H as _ <-. right. exists st1. destruct u.
    split; [reflexivity|]. cbn. now rewrite awaited_history, Hh.
Qed.

(** X18: [processDatabasePages] never throws, and the route never answers
    with status 500. *)
Theorem route_never_answers_500 (fuel : nat) (st : State W) (e : Error)
        (msg : string) (st' : State W) :
  processDatabasePages fuel st <> Some (inl e, st')
  /\ update_word_count_route fuel st <> Some (Json500 msg, st').
Proof.
  split; [apply processDatabasePages_never_throws|].
  intros H.
  pose proof (route_never_500 env Date_parse word_char fuel st _ _ H) as Hr.
  discriminate Hr.
Qed.

Section Idle.
(** A state with nothing in the queue in which every page the database
    lists has a row at least as recent as the listing, and the lookups are
    answered. *)
Variable st : State W.
Hypothesis queue_empty : queue st = [].
Hypothesis lookups_ok :
  forall pageId, sqlite_error env (SelectLastEdited pageId) (world st) = None.
Hypothesis all_crawled :
  forall c response,
    databases_query env c (world st) = inr response ->
    forall p, In p (results response) ->
      already_crawled Date_parse (stored_last_edited (pages st) (page_id p))
        (last_edited_time p) = true.

Lemma idle_awaited (stmt : SqlStmt) (evs0 : list Event) :
  awaited stmt (add_trace st evs0) = add_trace st (evs0 ++ [Sql stmt]).
Proof.
  rewrite awaited_empty by exact queue_empty.
  unfold add_trace. cbn. now rewrite app_assoc.
Qed.

Lemma add_trace_add_trace (s : State W) (a b : list Event) :
  add_trace (add_trace s a) b = add_trace s (a ++ b).
Proof.
  unfold add_trace. cbn. now rewrite app_assoc.
Qed.

Lemma idle_forPages (ps : list Page) (evs0 : list Event) :
  (forall p, In p ps ->
     already_crawled Date_parse (stored_last_edited (pages st) (page_id p))
       (last_edited_time p) = true) ->
  exists evs,
    forPages ps (add_trace st evs0) = (inr tt, add_trace st (evs0 ++ evs))
    /\ forallb quiet evs = true.
Proof.
  revert evs0. induction ps as [|p ps IH]; intros evs0 Hps.
  - exists []. now rewrite app_nil_r.
  - rewrite forPages_cons.
    rewrite (processPage_skip env Date_parse word_char p (add_trace st evs0)).
    + unfold skip_outcome, lookup_state.
      rewrite idle_awaited, add_trace_add_trace.
      destruct (IH ((evs0 ++ [Sql (SelectLastEdited (page_id p))])
                    ++ [ConsoleLog (AlreadyCrawled (page_url p))]))
        as [evs [Hrun Hq]]; [intros q Hq; apply Hps; now right|].
      eexists. split; [rewrite Hrun, <- !app_assoc; reflexivity|].
      cbn. exact Hq.
    + apply lookups_ok.
    + unfold lookup_state. rewrite idle_awaited. cbn. apply Hps. now left.
Qed.

Lemma idle_queryLoop (fuel : nat) (c : option string) (evs0 : list Event) r st' :
  queryLoop fuel c (add_trace st evs0) = Some (r, st') ->
  exists evs, st' = add_trace st (evs0 ++ evs) /\ forallb quiet evs = true.
Proof.
  revert c evs0. induction fuel as [|fuel IH]; intros c evs0 H; [discriminate H|].
  rewrite queryLoop_S in H. cbn [world add_trace] in H.
  destruct (databases_query env c (world st)) as [e | response] eqn:Hq.
  { injection H as _ <-. exists [CallDatabasesQuery c].
    split; [now rewrite add_trace_add_trace | reflexivity]. }
  rewrite add_trace_add_trace in H.
  destruct (idle_forPages (results response) (evs0 ++ [CallDatabasesQuery c])
              (all_crawled c response Hq)) as [evs [Hrun Hquiet]].
  rewrite Hrun in H. unfold rest_of_request in H.
  destruct (has_more response).
  - destruct (IH _ _ H) as [evs' [-> Hquiet']].
    exists ([CallDatabasesQuery c] ++ evs ++ evs'). split.
    + now rewrite <- !app_assoc.
    + cbn. rewrite forallb_app. now rewrite Hquiet, Hquiet'.
  - injection H as _ <-. exists ([CallDatabasesQuery c] ++ evs). split.
    + now rewrite <- !app_assoc.
    + exact Hquiet.
Qed.

(** X19: a run, started with nothing in the queue, over a database in which
    every listed page already has a row at least as recent as the listing
    does no work on any page: no block is listed, no page updated or read,
    no upsert issued; the world and the table are as before, and the
    history gets at most the sum of the unchanged table. *)
Theorem unchanged_listing_is_idle (fuel : nat) r st' :
  processDatabasePages fuel st = Some (r, st') ->
  world st' = world st
  /\ pages st' = pages st
  /\ queue st' = []
  /\ (exists evs, trace st' = trace st ++ evs /\ forallb quiet evs = true)
  /\ (word_count_history st' = word_count_history st
      \/ word_count_history st'
         = word_count_history st ++ [sum_word_counts (pages st)]).
Proof.
  unfold processDatabasePages, processDatabasePages_try.
  assert (Hst : st = add_trace st []).
  { destruct st. unfold add_trace. cbn. now rewrite app_nil_r. }
  destruct (queryLoop fuel None st) as [[[e | u] st1]|] eqn:Hloop; [| |discriminate].
  - rewrite Hst in Hloop. destruct (idle_queryLoop _ _ _ _ _ Hloop) as [evs [-> Hq]].
    intros H. injection H as _ <-. cbn.
    split; [reflexivity|]. split; [reflexivity|]. split; [exact queue_empty|].
    split; [|now left].
    exists (evs ++ [ConsoleError (FailedProcess e)]).
    split; [now rewrite app_assoc|]. rewrite forallb_app, Hq. reflexivity.
  - rewrite Hst in Hloop. destruct (idle_queryLoop _ _ _ _ _ Hloop) as [evs [-> Hq]].
    cbn [app] in *.
    unfold storeTotal, bind. rewrite getTotalWordCount_eq, idle_awaited.
    cbn [world add_trace].
    destruct (sqlite_error env SelectSum (world st)).
    { intros H. injection H as _ <-. cbn.
      split; [reflexivity|]. split; [reflexivity|]. split; [exact queue_empty|].
      split; [|now left].
      exists ((evs ++ [Sql SelectSum]) ++ [ConsoleError (FailedProcess e)]).
      split; [now rewrite !app_assoc|]. rewrite !forallb_app, Hq. reflexivity. }
    rewrite storeTotalWordCount_eq, idle_awaited. cbn [world add_trace pages].
    destruct (sqlite_error env InsertHistory (world st)).
    { intros H. injection H as _ <-. cbn.
      split; [reflexivity|]. split; [reflexivity|]. split; [exact queue_empty|].
      split; [|now left].
      exists (((evs ++ [Sql SelectSum]) ++ [Sql InsertHistory])
              ++ [ConsoleError (FailedProcess e)]).
      split; [now rewrite !app_assoc|]. rewrite !forallb_app, Hq. reflexivity. }
    cbn. intros H. injection H as _ <-. cbn.
    split; [reflexivity|]. split; [reflexivity|]. split; [exact queue_empty|].
    split; [|now right].
    eexists. split; [rewrite <- !app_assoc; reflexivity|].
    rewrite !forallb_app, Hq. reflexivity.
Qed.

End Idle.

(** X20: pagination follows [next_cursor] for as long as [has_more] is true:
    when the loop arrives at a request whose response lists pages that are
    all processed without a throw and has [has_more] false, the loop, given
    enough fuel, ends there without a throw. *)
Theorem pagination_completes (st0 : State W) (c : option string) (st : State W)
        (response : QueryResponse) (st2 : State W) :
  reaches st0 c st ->
  databases_query env c (world st) = inr response ->
  forPages (results response) (add_trace st [CallDatabasesQuery c]) = (inr tt, st2) ->
  has_more response = false ->
  exists n, forall fuel, (n <= fuel)%nat -> queryLoop fuel None st0 = Some (inr tt, st2).
Proof.
  intros Hreach Hq Hfor Hmore.
  apply (queryLoop_reaches env Date_parse word_char st0 c st Hreach 1).
  rewrite queryLoop_S, Hq, Hfor. cbn. now rewrite Hmore.
Qed.

(** X21: when a request of the listing fails, the run stops there: the
    error reaches the handler around the run, which logs it and returns,
    with the state of that moment; the rows written and the upserts issued
    for earlier responses stay and no history entry is added. *)
Theorem listing_failure_ends_run (st0 : State W) (c : option string) (st : State W)
        (e : Error) :
  reaches st0 c st ->
  databases_query env c (world st) = inl e ->
  word_count_history st = word_count_history st0
  /\ exists n, forall fuel, (n <= fuel)%nat ->
       processDatabasePages_try fuel st0
       = Some (inl e, add_trace st [CallDatabasesQuery c])
       /\ processDatabasePages fuel st0
          = Some (inr tt,
                  add_trace st [CallDatabasesQuery c;
                                ConsoleError (FailedProcess e)]).
Proof.
  intros Hreach Hq. split; [exact (reaches_history _ _ _ _ _ _ Hreach)|].
  assert (Hloop : queryLoop 1 c st = Some (inl e, add_trace st [CallDatabasesQuery c]))
    by now rewrite queryLoop_S, Hq.
  destruct (queryLoop_reaches env Date_parse word_char st0 c st Hreach _ _ Hloop)
    as [n Hn].
  exists n. intros fuel Hle.
  unfold processDatabasePages, processDatabasePages_try.
  rewrite (Hn fuel Hle). split; [reflexivity|].
  unfold emit, add_trace. cbn. now rewrite <- app_assoc.
Qed.

End EngineMore.
(** ** The sample workspace, continued *)

Section SampleMore.
Import Sample.

Local Abbreviation run := (processDatabasePages env Date_parse word_char).

(** The table after both pages of the healthy workspace were visited at
    their listed timestamps. *)
Local Abbreviation visited_rows :=
  (<["p1"%string := {| row_last_edited_time := "2024-05-01T10:00:00.000Z";
                       row_word_count := 6 |}]>
     (<["p2"%string := {| row_last_edited_time := "2024-05-02T08:30:00.000Z";
                          row_word_count := 2 |}]> (∅ : gmap string Row))).

(** X8 at the first page, behind the prompt driver: the lookup finds the
    timestamp written. *)
Lemma upsert_then_lookup_witness :
  fst (getStoredLastEditedTime env "p1"
         (snd (updateSQLiteDatabase "p1" stamp_after 6 (initial healthy ∅))))
  = inr (Some stamp_after).
Proof.
  destruct (upsert_then_lookup env "p1" stamp_after 6 (initial healthy ∅)
              eq_refl eq_refl) as [_ [_ [_ Hfirst]]].
  apply Hfirst; [eexists; reflexivity | reflexivity | reflexivity].
Defined.

(** X9 on the table with both pages visited: behind the prompt driver the
    total moves from 8 to 8 - 6 + 9. *)
Lemma sum_after_upsert_witness :
  fst (getTotalWordCount env
         (snd (updateSQLiteDatabase "p1" stamp_after 9 (initial healthy visited_rows))))
  = inr 11.
Proof.
  destruct (sum_after_upsert env "p1" stamp_after 9 (initial healthy visited_rows)
              eq_refl eq_refl eq_refl) as [total [Htotal [_ Hfirst]]].
  vm_compute in Htotal. injection Htotal as <-.
  rewrite Hfirst; [reflexivity | eexists; reflexivity].
Defined.

(** Behind the driver that answers [SELECT SUM] first, the total is still 8. *)
Example sum_before_upsert :
  fst (getTotalWordCount SampleRace.env
         (snd (updateSQLiteDatabase "p1" stamp_after 9 (initial healthy visited_rows))))
  = inr 8.
Proof. vm_compute. reflexivity. Qed.

(** X12 at a page whose lookup the driver refuses. *)
Lemma lookup_failure_throws_witness :
  processPage SampleFaults.env Date_parse word_char SampleFaults.locked_page
    (initial healthy ∅)
  = (inl "SQLITE_BUSY"%string,
     lookup_state SampleFaults.env SampleFaults.locked_page (initial healthy ∅)).
Proof.
  apply (lookup_failure_throws SampleFaults.env Date_parse word_char). reflexivity.
Defined.

(** X13 at a page that cannot be read back. *)
Lemma reread_failure_keeps_row_witness :
  exists st',
    processPage env Date_parse word_char SampleFaults.ghost_page (initial healthy ∅)
    = (inl "object_not_found"%string, st')
    /\ pages st' = ∅
    /\ queue st' = [].
Proof.
  eexists. split.
  - eapply (reread_failure_keeps_row env Date_parse word_char
              SampleFaults.ghost_page (initial healthy ∅)).
    + reflexivity.
    + reflexivity.
    + reflexivity.
    + reflexivity.
    + reflexivity.
  - split; reflexivity.
Defined.

(** X14 at the first page, behind the driver that refuses upserts: the page
    completes with its upsert in the queue, and once the driver has come to
    it the error is logged and the table is still empty. *)
Lemma upsert_failure_is_logged_witness :
  exists st',
    processPage SampleFaults.env Date_parse word_char page1 (initial healthy ∅)
    = (inr tt, st')
    /\ pages st' = ∅
    /\ queue st'
       = [ {| upsert_id := "p1"; upsert_time := stamp_after; upsert_count := 6 |} ]
    /\ pages (settle SampleFaults.env st') = ∅
    /\ trace (settle SampleFaults.env st')
       = trace st' ++ [ConsoleError (FailedUpdateSQLite "p1" "SQLITE_READONLY")].
Proof.
  edestruct (upsert_failure_is_logged SampleFaults.env Date_parse word_char
               page1 (initial healthy ∅)) as [st' [Hrun [_ [Hp [Hq [_ Hlog]]]]]].
  - reflexivity.
  - reflexivity.
  - reflexivity.
  - reflexivity.
  - reflexivity.
  - exists st'. split; [exact Hrun|]. split; [exact Hp|]. split; [exact Hq|].
    destruct (Hlog "SQLITE_READONLY"%string eq_refl eq_refl) as [_ [Hp' [_ Ht']]].
    split; [exact Hp' | exact Ht'].
Defined.

(** X11 at a page that has no row. *)
Lemma not_skipped_cases_witness :
  ~ skipped env Date_parse word_char page1 (initial healthy ∅).
Proof.
  apply (not_skipped_cases env Date_parse word_char page1 (initial healthy ∅)).
  - reflexivity.
  - left. reflexivity.
Defined.

(** X15 at the first run over the healthy workspace. *)
Lemma rows_change_only_by_upsert_witness :
  exists r st',
    run 1 (initial healthy ∅) = Some (r, st')
    /\ exists evs,
         trace st' = [] ++ evs
         /\ forall pageId,
              (is_Some ((∅ : gmap string Row) !! pageId) -> is_Some (pages st' !! pageId))
              /\ (~ In (Sql (UpsertPage pageId)) evs ->
                  ~ In pageId (queued_ids []) ->
                  pages st' !! pageId = (∅ : gmap string Row) !! pageId
                  /\ ~ In pageId (queued_ids (queue st'))).
Proof.
  eexists. eexists. split; [vm_compute; reflexivity|].
  apply (rows_change_only_by_upsert env Date_parse word_char 1 (initial healthy ∅)
           (inr tt)).
  vm_compute. reflexivity.
Defined.

(** X16 at the first run over the healthy workspace. *)
Lemma counts_stay_nonnegative_witness :
  exists r st',
    run 1 (initial healthy ∅) = Some (r, st')
    /\ rows_nonneg (pages st')
    /\ Forall (fun u => 0 <= upsert_count u) (queue st')
    /\ 0 <= sum_word_counts (pages st').
Proof.
  eexists. eexists. split; [vm_compute; reflexivity|].
  apply (counts_stay_nonnegative env Date_parse word_char 1 (initial healthy ∅)
           (inr tt)).
  - vm_compute. reflexivity.
  - intros k row Hk. cbn in Hk. rewrite lookup_empty in Hk. discriminate Hk.
  - constructor.
Defined.

(** X17 at the first run over the healthy workspace, behind the driver that
    answers [SELECT SUM] first. *)
Lemma history_is_append_only_witness :
  exists r st',
    processDatabasePages SampleRace.env Date_parse word_char 1 (initial healthy ∅)
    = Some (r, st')
    /\ (word_count_history st' = []
        \/ exists st1,
             queryLoop SampleRace.env Date_parse word_char 1 None (initial healthy ∅)
             = Some (inr tt, st1)
             /\ word_count_history st'
                = [] ++ [sum_word_counts (pages (awaited SampleRace.env SelectSum st1))]).
Proof.
  eexists. eexists. split; [vm_compute; reflexivity|].
  apply (history_is_append_only SampleRace.env Date_parse word_char 1
           (initial healthy ∅) (inr tt)).
  vm_compute. reflexivity.
Defined.

(** X19 at the healthy workspace with both pages visited. *)
Lemma unchanged_listing_is_idle_witness :
  exists r st',
    run 1 (initial healthy visited_rows) = Some (r, st')
    /\ world st' = healthy
    /\ pages st' = visited_rows
    /\ queue st' = []
    /\ (exists evs, trace st' = [] ++ evs /\ forallb quiet evs = true)
    /\ (word_count_history st' = []
        \/ word_count_history st' = [] ++ [sum_word_counts visited_rows]).
Proof.
  destruct (run 1 (initial healthy visited_rows)) as [[r st']|] eqn:Hrun;
    [|vm_compute in Hrun; discriminate Hrun].
  exists r, st'. split; [reflexivity|].
  refine (unchanged_listing_is_idle env Date_parse word_char
            (initial healthy visited_rows) _ _ _ 1%nat r st' Hrun).
  - reflexivity.
  - intros pageId. reflexivity.
  - intros c response Hq. vm_compute in Hq. injection Hq as <-.
    intros p [<- | [<- | []]]; vm_compute; reflexivity.
Defined.

(** X20 at the database that answers one page per request. *)
Lemma pagination_completes_witness :
  exists st2 n, forall fuel, (n <= fuel)%nat ->
    queryLoop SamplePaged.env Date_parse word_char fuel None (initial healthy ∅)
    = Some (inr tt, st2).
Proof.
  eexists.
  eapply (pagination_completes SamplePaged.env Date_parse word_char
            (initial healthy ∅) (Some "c1"%string)).
  - eapply (reaches_next SamplePaged.env Date_parse word_char (initial healthy ∅) None
              (initial healthy ∅)
              {| results := [page1]; has_more := true; next_cursor := Some "c1"%string |}).
    + apply reaches_start.
    + reflexivity.
    + vm_compute. reflexivity.
    + reflexivity.
  - vm_compute. reflexivity.
  - vm_compute. reflexivity.
  - reflexivity.
Defined.

(** With one unit of fuel the paged run is cut short; with two it visits
    both pages. *)
Example paged_run :
  processDatabasePages SamplePaged.env Date_parse word_char 1 (initial healthy ∅) = None
  /\ exists st,
       processDatabasePages SamplePaged.env Date_parse word_char 2 (initial healthy ∅)
       = Some (inr tt, st)
       /\ word_count_history st = [8].
Proof.
  split; [vm_compute; reflexivity|].
  eexists. split; vm_compute; reflexivity.
Qed.

(** X21 at the workspace whose listing fails. *)
Lemma listing_failure_ends_run_witness :
  exists n, forall fuel, (n <= fuel)%nat ->
    processDatabasePages_try env Date_parse word_char fuel (initial broken_listing ∅)
    = Some (inl "service_unavailable"%string,
            add_trace (initial broken_listing ∅) [CallDatabasesQuery None])
    /\ run fuel (initial broken_listing ∅)
       = Some (inr tt,
               add_trace (initial broken_listing ∅)
                 [CallDatabasesQuery None;
                  ConsoleError (FailedProcess "service_unavailable")]).
Proof.
  refine (proj2 (listing_failure_ends_run env Date_parse word_char
                   (initial broken_listing ∅) None (initial broken_listing ∅)
                   "service_unavailable"%string _ _)).
  - apply reaches_start.
  - reflexivity.
Defined.

End SampleMore.

(** ** Rich text *)

Section RichText.
Variable word_char : N -> bool.

Lemma getPlainTextFromRichText_cons (t : RichTextItem) (rt : list RichTextItem) :
  getPlainTextFromRichText (t :: rt) = plain_text t ++ getPlainTextFromRichText rt.
Proof. reflexivity. Qed.

(** X5: a block whose payload has [rich_text] yields its spans joined with
    nothing between them, whatever its type tag (then the annotation);
    joining is compatible with concatenation; and the count of the joined
    text is at most the sum of the counts of the spans and falls short of
    it by at most one per join. *)
Theorem rich_text_joined :
  (forall b rt,
      rich_text (payload b) = Some rt ->
      getTextFromBlock b
      = getPlainTextFromRichText rt
        ++ (if has_children b then has_children_suffix else []))
  /\ (forall a b,
        getPlainTextFromRichText (a ++ b)
        = getPlainTextFromRichText a ++ getPlainTextFromRichText b)
  /\ (forall rt,
        foldr Z.add 0
          (List.map (fun t => countWordsInText word_char (Some (plain_text t))) rt)
        - Z.of_nat (Nat.pred (length rt))
        <= countWordsInText word_char (Some (getPlainTextFromRichText rt))
        <= foldr Z.add 0
             (List.map (fun t => countWordsInText word_char (Some (plain_text t))) rt)).
Proof.
  split; [|split].
  - intros b rt Hrt. unfold getTextFromBlock. rewrite Hrt.
    destruct (has_children b); [reflexivity | now rewrite app_nil_r].
  - intros a b. unfold getPlainTextFromRichText.
    now rewrite map_app, concat_app.
  - induction rt as [|t rt IH]; [cbn; lia|].
    rewrite getPlainTextFromRichText_cons.
    destruct rt as [|t' rt].
    + cbn [getPlainTextFromRichText List.map concat]. rewrite app_nil_r.
      cbn. lia.
    + remember (t' :: rt) as rest eqn:Hrest.
      assert (Hlen : Nat.pred (length (t :: rest)) = S (Nat.pred (length rest)))
        by (subst rest; reflexivity).
      rewrite Hlen. cbn [List.map foldr].
      pose proof (scan_app_bounds word_char [] (plain_text t)
                    (getPlainTextFromRichText rest)) as Hb.
      rewrite !countWordsInText_length in *. lia.
Qed.

End RichText.
